(** * Atomic chess: a shallow embedding of GameBoard.py and GamePiece.py

    The Python [GameBoard] object is a record [game]; its methods that
    mutate [self] are computations of a small state monad that can also
    raise a Python exception (only [IndexError] arises from this code).
    The board is the list of lists of the source, indexed as Python
    indexes lists. *)

From Stdlib Require Import ZArith Bool Lia.
From Stdlib Require Import String Ascii.
From stdpp Require Import base list.

Open Scope Z_scope.

(** ** Pieces (GamePiece.py) *)

(** The strings "WHITE" and "BLACK". *)
Inductive color := WHITE | BLACK.

Definition color_eqb (a b : color) : bool :=
  match a, b with
  | WHITE, WHITE | BLACK, BLACK => true
  | _, _ => false
  end.

(** One constructor per subclass of [GamePiece]; a [Pawn] object also
    carries its private attribute [_is_first_turn]. *)
Inductive piece :=
| King (c : color)
| Queen (c : color)
| Rook (c : color)
| Bishop (c : color)
| Knight (c : color)
| Pawn (c : color) (is_first_turn : bool).

(** [GamePiece.get_color] *)
Definition get_color (p : piece) : color :=
  match p with
  | King c | Queen c | Rook c | Bishop c | Knight c | Pawn c _ => c
  end.

Definition is_king (p : piece) : bool :=
  match p with King _ => true | _ => false end.
Definition is_queen (p : piece) : bool :=
  match p with Queen _ => true | _ => false end.
Definition is_rook (p : piece) : bool :=
  match p with Rook _ => true | _ => false end.
Definition is_bishop (p : piece) : bool :=
  match p with Bishop _ => true | _ => false end.
Definition is_knight (p : piece) : bool :=
  match p with Knight _ => true | _ => false end.
Definition is_pawn (p : piece) : bool :=
  match p with Pawn _ _ => true | _ => false end.

(** [type(x) is Pawn] for a square's content ([None] is not a Pawn). *)
Definition sq_is_pawn (x : option piece) : bool :=
  match x with Some p => is_pawn p | None => false end.

(** [Knight.is_valid_move] *)
Definition knight_is_valid_move (sq_from sq_to : Z * Z) : bool :=
  let row_distance := Z.abs (fst sq_from - fst sq_to) in
  let col_distance := Z.abs (snd sq_from - snd sq_to) in
  if (row_distance =? 2) && (col_distance =? 1) then true
  else if (row_distance =? 1) && (col_distance =? 2) then true
  else false.

(** The direction strings returned by [GameBoard.move_direction]. *)
Inductive direction :=
| W_FORWARD | B_FORWARD | STRAIGHT | W_DIAGONAL | B_DIAGONAL | DIAGONAL.

Definition direction_eqb (a b : direction) : bool :=
  match a, b with
  | W_FORWARD, W_FORWARD | B_FORWARD, B_FORWARD | STRAIGHT, STRAIGHT
  | W_DIAGONAL, W_DIAGONAL | B_DIAGONAL, B_DIAGONAL
  | DIAGONAL, DIAGONAL => true
  | _, _ => false
  end.

(** The Python values the validity methods return: [False], [True],
    [None] (a function falling off its end) and the string
    "PAWN_CAPTURE". *)
Inductive pyret := PFalse | PTrue | PNone | PPawnCapture.

(** Python truthiness of those values. *)
Definition truthy (v : pyret) : bool :=
  match v with PFalse | PNone => false | PTrue | PPawnCapture => true end.

Definition of_bool (b : bool) : pyret := if b then PTrue else PFalse.

(** [Pawn.is_valid_move]: the returned value, and the value of
    [self._is_first_turn] after the call (the method assigns it). *)
Definition pawn_is_valid_move (color_ : color) (is_first_turn : bool)
    (dir : direction) (distance : Z) : pyret * bool :=
  if direction_eqb dir B_DIAGONAL && color_eqb color_ BLACK && (distance =? 1)
  then (PPawnCapture, is_first_turn)
  else if direction_eqb dir W_DIAGONAL && color_eqb color_ WHITE && (distance =? 1)
  then (PPawnCapture, is_first_turn)
  else if negb (direction_eqb dir B_FORWARD) && negb (direction_eqb dir W_FORWARD)
  then (PFalse, is_first_turn)
  else
    let black_valid := color_eqb color_ BLACK && direction_eqb dir B_FORWARD in
    let white_valid := color_eqb color_ WHITE && direction_eqb dir W_FORWARD in
    if black_valid || white_valid then
      if (distance =? 2) && is_first_turn then (PTrue, false)
      else if distance =? 1 then (PTrue, is_first_turn)
      else (PFalse, is_first_turn)
    else (PFalse, is_first_turn).

(** ** Python lists *)

(** [l[i]] for an [int] index: negative indices count from the end;
    [None] is the [IndexError]. *)
Definition py_index {A} (l : list A) (i : Z) : option A :=
  if i <? 0 then
    if Z.of_nat (length l) + i <? 0 then None
    else l !! Z.to_nat (Z.of_nat (length l) + i)
  else l !! Z.to_nat i.

(** [l[i] = x]; [None] is the [IndexError]. *)
Definition py_assign {A} (l : list A) (i : Z) (x : A) : option (list A) :=
  let j := if i <? 0 then Z.of_nat (length l) + i else i in
  if (j <? 0) || (Z.of_nat (length l) <=? j) then None
  else Some (<[Z.to_nat j := x]> l).

(** ** The game object *)

Definition board := list (list (option piece)).

(** The strings "UNFINISHED", "WHITE_WON", "BLACK_WON". *)
Inductive game_state := UNFINISHED | WHITE_WON | BLACK_WON.

(** [self._board], [self._game_state], [self._player_turn] and the two
    entries of the dict [self._king_status]. *)
Record game := mkGame {
  _board : board;
  _game_state : game_state;
  _player_turn : color;
  king_white : bool;
  king_black : bool
}.

Definition set_board (g : game) (b : board) : game :=
  mkGame b (_game_state g) (_player_turn g) (king_white g) (king_black g).

(** The square [self._board[r][c]] read without the monad. *)
Definition square (b : board) (r c : Z) : option (option piece) :=
  match py_index b r with Some row => py_index row c | None => None end.

(** ** A state monad with Python exceptions *)

Inductive exc := IndexError | AttributeError.

Inductive result (A : Type) :=
| Ok (a : A) (g : game)
| Raise (e : exc) (g : game).
Arguments Ok {A}.
Arguments Raise {A}.

Definition M (A : Type) := game -> result A.

Definition ret {A} (a : A) : M A := fun g => Ok a g.

Definition bind {A B} (m : M A) (k : A -> M B) : M B := fun g =>
  match m g with
  | Ok a g' => k a g'
  | Raise e g' => Raise e g'
  end.

Notation "'let!' x := m 'in' k" := (bind m (fun x => k))
  (at level 200, x pattern, m at level 100, k at level 200).

Definition raise {A} (e : exc) : M A := fun g => Raise e g.
Definition gets {A} (f : game -> A) : M A := fun g => Ok (f g) g.
Definition modify (f : game -> game) : M unit := fun g => Ok tt (f g).

(** [self._board[r][c]] *)
Definition get_sq (r c : Z) : M (option piece) := fun g =>
  match square (_board g) r c with
  | Some x => Ok x g
  | None => Raise IndexError g
  end.

(** [self._board[r][c] = x] *)
Definition set_sq (r c : Z) (x : option piece) : M unit := fun g =>
  match py_index (_board g) r with
  | None => Raise IndexError g
  | Some row =>
      match py_assign row c x with
      | None => Raise IndexError g
      | Some row' =>
          match py_assign (_board g) r row' with
          | None => Raise IndexError g
          | Some b' => Ok tt (set_board g b')
          end
      end
  end.

Definition set_king_status (c : color) (v : bool) (g : game) : game :=
  match c with
  | WHITE => mkGame (_board g) (_game_state g) (_player_turn g) v (king_black g)
  | BLACK => mkGame (_board g) (_game_state g) (_player_turn g) (king_white g) v
  end.

Definition king_status (g : game) (c : color) : bool :=
  match c with WHITE => king_white g | BLACK => king_black g end.

(** Python's [range(a, b)]. *)
Definition py_range (a b : Z) : list Z :=
  map (fun k => a + Z.of_nat k) (seq 0 (Z.to_nat (b - a))).

(** ** The initial position ([GameBoard.initialize_board]) *)

Definition back_rank (c : color) : list (option piece) :=
  [Some (Rook c); Some (Knight c); Some (Bishop c); Some (Queen c);
   Some (King c); Some (Bishop c); Some (Knight c); Some (Rook c)].

Definition pawn_rank (c : color) : list (option piece) :=
  map (fun _ => Some (Pawn c true)) (py_range 0 8).

Definition empty_rank : list (option piece) := map (fun _ => None) (py_range 0 8).

Definition initialize_board : board :=
  [back_rank BLACK; pawn_rank BLACK; empty_rank; empty_rank;
   empty_rank; empty_rank; pawn_rank WHITE; back_rank WHITE].

(** [GameBoard.__init__] *)
Definition new_game : game :=
  mkGame initialize_board UNFINISHED WHITE true true.

(** ** Parsing squares ([GameBoard.notation_to_board_pos])

    Input strings are modelled as ASCII strings; [str.isalpha],
    [str.isnumeric] and [str.lower] are their ASCII behaviour. *)

Definition isalpha (ch : ascii) : bool :=
  let n := nat_of_ascii ch in
  ((65 <=? n) && (n <=? 90))%nat || ((97 <=? n) && (n <=? 122))%nat.

Definition isnumeric (ch : ascii) : bool :=
  let n := nat_of_ascii ch in ((48 <=? n) && (n <=? 57))%nat.

(** [int(ch)] for a character accepted by [isnumeric]. *)
Definition py_int (ch : ascii) : Z := Z.of_nat (nat_of_ascii ch) - 48.

Definition lower (ch : ascii) : ascii :=
  let n := nat_of_ascii ch in
  if ((65 <=? n) && (n <=? 90))%nat then ascii_of_nat (n + 32) else ch.

(** The dict [letter_to_num] built by the loop over [range(8)]. *)
Definition letter_to_num : list (ascii * Z) :=
  map (fun num => (ascii_of_nat (97 + Z.to_nat num), num)) (py_range 0 8).

Fixpoint assoc_lookup (k : ascii) (d : list (ascii * Z)) : option Z :=
  match d with
  | [] => None
  | (k', v) :: d' => if Ascii.eqb k k' then Some v else assoc_lookup k d'
  end.

Definition notation_to_board_pos (chess_notation : string) : Z * Z :=
  if (String.length chess_notation <? 2)%nat || (2 <? String.length chess_notation)%nat
  then (-1, -1)
  else match chess_notation with
  | String c0 (String c1 EmptyString) =>
      if negb (isalpha c0) then (-1, -1)
      else if negb (isnumeric c1) then (-1, -1)
      else if (py_int c1 <? 0) || (8 <? py_int c1) then (-1, -1)
      else
        let row := Z.abs (py_int c1 - 8) in
        match assoc_lookup (lower c0) letter_to_num with
        | None => (-1, -1)
        | Some col => (row, col)
        end
  | _ => (-1, -1)
  end.

(** ** Move geometry ([move_direction], [piece_move]) *)

Definition move_direction (sq_from sq_to : Z * Z) (p : piece) : option direction :=
  let '(fr, fc) := sq_from in
  let '(tr, tc) := sq_to in
  if (fr =? tr) || (fc =? tc) then
    if (fr - tr >? 0) && is_pawn p then Some W_FORWARD
    else if (fr - tr <? 0) && is_pawn p then Some B_FORWARD
    else Some STRAIGHT
  else if Z.abs (fr - tr) =? Z.abs (fc - tc) then
    if (fr - 1 =? tr) && (fc - 1 =? tc) && is_pawn p then Some W_DIAGONAL
    else if (fr - 1 =? tr) && (fc + 1 =? tc) && is_pawn p then Some W_DIAGONAL
    else if (fr + 1 =? tr) && (fc - 1 =? tc) && is_pawn p then Some B_DIAGONAL
    else if (fr + 1 =? tr) && (fc + 1 =? tc) && is_pawn p then Some B_DIAGONAL
    else Some DIAGONAL
  else None.

(** The [distance] computed in [valid_move]: the row distance, or for a
    sideways straight move [sq_from[1] - sq_to[1]] (no [abs]). *)
Definition move_distance (sq_from sq_to : Z * Z) (dir : direction) : Z :=
  if direction_eqb dir STRAIGHT && (fst sq_from =? fst sq_to)
  then snd sq_from - snd sq_to
  else Z.abs (fst sq_from - fst sq_to).

(** [GameBoard.piece_move]: the returned value and the piece after the
    call (a Pawn's [_is_first_turn] may have been assigned). *)
Definition piece_move (dir : direction) (distance : Z) (p : piece) : pyret * piece :=
  match p with
  | Queen _ => (PTrue, p)
  | King _ => (if distance =? 1 then PTrue else PNone, p)
  | Rook _ => (if direction_eqb dir STRAIGHT then PTrue else PNone, p)
  | Bishop _ => (if direction_eqb dir DIAGONAL then PTrue else PNone, p)
  | Pawn c first =>
      let '(v, first') := pawn_is_valid_move c first dir distance in
      (v, Pawn c first')
  | Knight _ => (PFalse, p)
  end.

(** ** Path clearance *)

(** The loops [for ... : if self._board[r][c] is not None: return False]
    followed by [return True], over the visited squares in order. *)
Fixpoint path_clear (cells : list (Z * Z)) : M bool :=
  match cells with
  | [] => ret true
  | (r, c) :: rest =>
      let! x := get_sq r c in
      match x with
      | Some _ => ret false
      | None => path_clear rest
      end
  end.

(** [GameBoard.clear_path_straight] *)
Definition clear_path_straight (sq_from sq_to : Z * Z) : M bool :=
  let '(from_row, from_col) := sq_from in
  let '(to_row, to_col) := sq_to in
  if from_row - to_row >? 0 then
    path_clear (map (fun row => (row, from_col)) (py_range (to_row + 1) from_row))
  else if from_row - to_row <? 0 then
    path_clear (map (fun row => (row, from_col)) (py_range (from_row + 1) to_row))
  else if from_col - to_col >? 0 then
    path_clear (map (fun col => (from_row, col)) (py_range (to_col + 1) from_col))
  else if from_col - to_col <? 0 then
    path_clear (map (fun col => (from_row, col)) (py_range (from_col + 1) to_col))
  else ret false.

(** [GameBoard.clear_path_diagonal] *)
Definition clear_path_diagonal (sq_from sq_to : Z * Z) : M bool :=
  let '(from_row, from_col) := sq_from in
  let '(to_row, to_col) := sq_to in
  let row_direction := from_row - to_row in
  let col_direction := from_col - to_col in
  let distance := Z.abs (from_row - to_row) in
  let shifts := py_range 1 distance in
  if (row_direction >? 0) && (col_direction >? 0) then
    path_clear (map (fun shift => (from_row - shift, from_col - shift)) shifts)
  else if (row_direction >? 0) && (col_direction <? 0) then
    path_clear (map (fun shift => (from_row - shift, from_col + shift)) shifts)
  else if (row_direction <? 0) && (col_direction >? 0) then
    path_clear (map (fun shift => (from_row + shift, from_col - shift)) shifts)
  else if (row_direction <? 0) && (col_direction <? 0) then
    path_clear (map (fun shift => (from_row + shift, from_col + shift)) shifts)
  else ret false.

(** [GameBoard.clear_path_pawn]; it falls off its end ([None]) when the
    rows are equal. *)
Definition clear_path_pawn (sq_from sq_to : Z * Z) : M pyret :=
  let '(from_row, from_col) := sq_from in
  let to_row := fst sq_to in
  if from_row - to_row >? 0 then
    let! b := path_clear (map (fun row => (row, from_col)) (py_range to_row from_row)) in
    ret (of_bool b)
  else if from_row - to_row <? 0 then
    let! b := path_clear (map (fun row => (row, from_col)) (py_range (from_row + 1) (to_row + 1))) in
    ret (of_bool b)
  else ret PNone.

(** [GameBoard.pawn_capture] *)
Definition pawn_capture (sq_from sq_to : Z * Z) (color_ : color) : M bool :=
  let '(from_row, from_col) := sq_from in
  let '(to_row, to_col) := sq_to in
  let row_direction := from_row - to_row in
  let col_direction := from_col - to_col in
  let! capture :=
    (if (row_direction >? 0) && (col_direction >? 0) then
       let! x := get_sq (from_row - 1) (from_col - 1) in ret (bool_decide (is_Some x))
     else if (row_direction >? 0) && (col_direction <? 0) then
       let! x := get_sq (from_row - 1) (from_col + 1) in ret (bool_decide (is_Some x))
     else if (row_direction <? 0) && (col_direction >? 0) then
       let! x := get_sq (from_row + 1) (from_col - 1) in ret (bool_decide (is_Some x))
     else if (row_direction <? 0) && (col_direction <? 0) then
       let! x := get_sq (from_row + 1) (from_col + 1) in ret (bool_decide (is_Some x))
     else ret false) in
  if capture then
    let! target_square := get_sq to_row to_col in
    match target_square with
    | Some t => ret (negb (color_eqb color_ (get_color t)))
    | None => raise AttributeError  (* [None.get_color()] *)
    end
  else ret false.

(** The values of [GameBoard.is_capture]: [False], [True], "KING" and
    "WRONG_COLOR". *)
Inductive capture_result := CFalse | CTrue | CKING | CWRONG_COLOR.

(** [GameBoard.is_capture] *)
Definition is_capture (sq_from sq_to : Z * Z) (p : piece) : M capture_result :=
  let! target_square := get_sq (fst sq_to) (snd sq_to) in
  match target_square with
  | Some t =>
      if color_eqb (get_color p) (get_color t) then ret CWRONG_COLOR
      else if is_king p then ret CKING
      else ret CTrue
  | None => ret CFalse
  end.

(** [GameBoard.valid_move].  [piece] is the object stored at [sq_from]:
    the assignment to a Pawn's [_is_first_turn] inside [piece_move] is
    seen on the board, which the write-back models. *)
Definition valid_move (sq_from sq_to : Z * Z) (p : piece) : M pyret :=
  match move_direction sq_from sq_to p with
  | None => ret PFalse
  | Some dir =>
      let distance := move_distance sq_from sq_to dir in
      let '(piece_move_valid, p') := piece_move dir distance p in
      let! _ := set_sq (fst sq_from) (snd sq_from) (Some p') in
      match piece_move_valid with
      | PPawnCapture =>
          let! is_cap := pawn_capture sq_from sq_to (get_color p) in
          if is_cap then ret PPawnCapture else ret PFalse
      | _ =>
          if truthy piece_move_valid then
            if (is_queen p || is_king p) && direction_eqb dir STRAIGHT then
              let! b := clear_path_straight sq_from sq_to in ret (of_bool b)
            else if (is_queen p || is_king p) && direction_eqb dir DIAGONAL then
              let! b := clear_path_diagonal sq_from sq_to in ret (of_bool b)
            else if is_rook p then
              let! b := clear_path_straight sq_from sq_to in ret (of_bool b)
            else if is_bishop p then
              let! b := clear_path_diagonal sq_from sq_to in ret (of_bool b)
            else if is_pawn p then clear_path_pawn sq_from sq_to
            else ret PNone
          else ret PFalse
      end
  end.

(** ** Applying a move *)

(** [GameBoard.update_turn] *)
Definition update_turn : M unit :=
  modify (fun g =>
    mkGame (_board g) (_game_state g)
      (match _player_turn g with WHITE => BLACK | BLACK => WHITE end)
      (king_white g) (king_black g)).

(** The squares visited by the two nested loops of [explosion], in order:
    [(row + row_offset, col + col_offset)]. *)
Definition explosion_cells (sq_to : Z * Z) : list (Z * Z) :=
  let row := fst sq_to - 1 in
  let col := snd sq_to - 1 in
  flat_map (fun row_offset =>
    map (fun col_offset => (row + row_offset, col + col_offset)) (py_range 0 3))
    (py_range 0 3).

Definition off_board (r c : Z) : bool :=
  (r <? 0) || (r >? 7) || (c <? 0) || (c >? 7).

(** The scanning loop of [explosion]: kings found mark their colour's
    [_king_status] entry [False]; every occupied square is appended to
    [explode_list]. *)
Fixpoint explosion_scan (cells : list (Z * Z)) (explode_list : list (Z * Z))
    : M (list (Z * Z)) :=
  match cells with
  | [] => ret explode_list
  | (r, c) :: rest =>
      if off_board r c then explosion_scan rest explode_list
      else
        let! x := get_sq r c in
        match x with
        | None => explosion_scan rest explode_list
        | Some p =>
            let! _ :=
              (if is_king p then
                 if color_eqb (get_color p) WHITE
                 then modify (set_king_status WHITE false)
                 else modify (set_king_status BLACK false)
               else ret tt) in
            explosion_scan rest (explode_list ++ [(r, c)])
        end
  end.

(** The removal loop of [explosion]: pawns are skipped. *)
Fixpoint explode_items (items : list (Z * Z)) : M unit :=
  match items with
  | [] => ret tt
  | (r, c) :: rest =>
      let! x := get_sq r c in
      if sq_is_pawn x then explode_items rest
      else let! _ := set_sq r c None in explode_items rest
  end.

(** [GameBoard.explosion] *)
Definition explosion (sq_to : Z * Z) : M bool :=
  let! explode_list := explosion_scan (explosion_cells sq_to) [] in
  let! kw := gets king_white in
  let! kb := gets king_black in
  if negb kw && negb kb then ret false
  else
    let! captured_square := get_sq (fst sq_to) (snd sq_to) in
    let! _ :=
      (if sq_is_pawn captured_square
       then set_sq (fst sq_to) (snd sq_to) None else ret tt) in
    let! _ := explode_items explode_list in
    ret true.

(** [GameBoard.update_win] *)
Definition update_win : M unit :=
  modify (fun g =>
    if negb (king_white g) then
      mkGame (_board g) BLACK_WON (_player_turn g) (king_white g) (king_black g)
    else if negb (king_black g) then
      mkGame (_board g) WHITE_WON (_player_turn g) (king_white g) (king_black g)
    else g).

(** [GameBoard.move_piece] *)
Definition move_piece (sq_from sq_to : Z * Z) : M unit :=
  let! x := get_sq (fst sq_from) (snd sq_from) in
  let! _ := set_sq (fst sq_to) (snd sq_to) x in
  set_sq (fst sq_from) (snd sq_from) None.

(** [GameBoard.update_board] *)
Definition update_board (sq_from sq_to : Z * Z) (capture : bool) : M bool :=
  let! _ := update_turn in
  if capture then
    let! explode := explosion sq_to in
    if negb explode then ret false
    else
      let! _ := set_sq (fst sq_from) (snd sq_from) None in
      let! _ := update_win in
      ret true
  else
    let! _ := move_piece sq_from sq_to in
    ret true.

Definition game_state_eqb (a b : game_state) : bool :=
  match a, b with
  | UNFINISHED, UNFINISHED | WHITE_WON, WHITE_WON | BLACK_WON, BLACK_WON => true
  | _, _ => false
  end.

Definition pos_eqb (a b : Z * Z) : bool := (fst a =? fst b) && (snd a =? snd b).

(** [GameBoard.make_move] *)
Definition make_move (a b : string) : M bool :=
  let! st := gets _game_state in
  if negb (game_state_eqb st UNFINISHED) then ret false
  else
    let sq_from := notation_to_board_pos a in
    let sq_to := notation_to_board_pos b in
    if pos_eqb sq_from (-1, -1) || pos_eqb sq_to (-1, -1) then ret false
    else
      let! x := get_sq (fst sq_from) (snd sq_from) in
      match x with
      | None => ret false
      | Some p =>
          if pos_eqb sq_from sq_to then ret false
          else
            let! turn := gets _player_turn in
            if negb (color_eqb (get_color p) turn) then ret false
            else
              let! valid :=
                (if is_knight p then ret (of_bool (knight_is_valid_move sq_from sq_to))
                 else valid_move sq_from sq_to p) in
              match valid with
              | PPawnCapture => update_board sq_from sq_to true
              | _ =>
                  if truthy valid then
                    let! capture := is_capture sq_from sq_to p in
                    match capture with
                    | CKING | CWRONG_COLOR => ret false
                    | CTrue => update_board sq_from sq_to true
                    | CFalse => update_board sq_from sq_to false
                    end
                  else ret false
              end
      end.

(** Running a sequence of [make_move] calls (as [play_game] does, which
    ignores the returned value). *)
Fixpoint play (moves : list (string * string)) : M (list bool) :=
  match moves with
  | [] => ret []
  | (a, b) :: rest =>
      let! r := make_move a b in
      let! rs := play rest in
      ret (r :: rs)
  end.

(** ** Vocabulary of the statements *)

(** The 64 squares of the board. *)
Definition on_board (r c : Z) : Prop := 0 <= r <= 7 /\ 0 <= c <= 7.

(** The 3x3 neighbourhood of the square [t]. *)
Definition in_blast (t : Z * Z) (r c : Z) : bool :=
  (Z.abs (r - fst t) <=? 1) && (Z.abs (c - snd t) <=? 1).

(** The other colour. *)
Definition opponent (c : color) : color :=
  match c with WHITE => BLACK | BLACK => WHITE end.

(** The square holds a Pawn. *)
Definition holds_pawn (x : option (option piece)) : bool :=
  match x with Some (Some p) => is_pawn p | _ => false end.

(** [p'] is the object [p], possibly with its [_is_first_turn] changed. *)
Definition same_piece (p p' : piece) : Prop :=
  p' = p \/ exists c f f', p = Pawn c f /\ p' = Pawn c f'.

(** States reachable from [g0] through [make_move] calls that return. *)
Inductive reachable_from (g0 : game) : game -> Prop :=
| reach_refl : reachable_from g0 g0
| reach_step g1 a b r g2 :
    reachable_from g0 g1 -> make_move a b g1 = Ok r g2 -> reachable_from g0 g2.

(** The state left by a vetoed double-king explosion: both entries of
    [_king_status] are [False] and the game is unfinished. *)
Definition both_kings_marked (g : game) : Prop :=
  king_white g = false /\ king_black g = false /\ _game_state g = UNFINISHED.

Definition state_of {A} (r : result A) : game :=
  match r with Ok _ g => g | Raise _ g => g end.

(** Computations that leave the game untouched. *)
Definition read_only {A} (m : M A) : Prop := forall g, state_of (m g) = g.

(** Move lists used in the concrete scenarios. *)
Open Scope string_scope.

Definition knight_then_a6 : list (string * string) :=
  [("g1", "f3"); ("a7", "a6")].

Definition kings_meet : list (string * string) :=
  [("e2", "e4"); ("e7", "e5"); ("d1", "h5"); ("e8", "e7"); ("e1", "e2");
   ("e7", "e6"); ("e2", "e3"); ("e6", "d6"); ("e3", "d4"); ("a7", "a6")].

Definition e3_then_a6 : list (string * string) :=
  [("e2", "e3"); ("a7", "a6")].

Definition e4_d5 : list (string * string) :=
  [("e2", "e4"); ("d7", "d5")].

Definition bishop_out : list (string * string) :=
  [("e2", "e4"); ("a7", "a6"); ("f1", "c4"); ("a6", "a5")].

(** The games those move lists lead to from the starting position. *)
Definition after_knight_then_a6 : game := state_of (play knight_then_a6 new_game).
Definition after_kings_meet : game := state_of (play kings_meet new_game).
Definition after_e3_then_a6 : game := state_of (play e3_then_a6 new_game).
Definition after_e4_d5 : game := state_of (play e4_d5 new_game).
Definition after_bishop_out : game := state_of (play bishop_out new_game).

(** White's queen takes e5 with both kings next to it: the explosion is
    vetoed. *)
Definition vetoed : game := state_of (make_move "h5" "e5" after_kings_meet).

(** A finished game. *)
Definition white_has_won : game := mkGame initialize_board WHITE_WON BLACK true false.

(** 1. Nf3 a6 2. Ne5 a5 3. Nxd7: the explosion on d7 takes Black's king. *)
Definition knight_raid : list (string * string) :=
  [("g1", "f3"); ("a7", "a6"); ("f3", "e5"); ("a6", "a5"); ("e5", "d7")].

Definition after_knight_raid : game := state_of (play knight_raid new_game).

(** 1. a4 h6, and 1. e4 a6: positions where a Rook, and a Bishop, a Queen
    and the King, can move. *)
Definition after_a4_h6 : game := state_of (play [("a2", "a4"); ("h7", "h6")] new_game).
Definition after_e4_a6 : game := state_of (play [("e2", "e4"); ("a7", "a6")] new_game).

Close Scope string_scope.

(** ** [GameBoard.rapture_pawns]

    The three branches run the same two nested loops with a different
    test.  [for row_index, row in enumerate(self._board)]: the list of
    rows is never reassigned, and [row] is the live row object, so
    [item] is the current content of [self._board[row_index][col_index]];
    the number of squares of each row never changes. *)

(** [x == s] for the optional argument [color] (default [None]). *)
Definition py_str_eq (x : option string) (s : string) : bool :=
  match x with Some s' => String.eqb s' s | None => false end.

(** [for col_index, item in enumerate(row): if sel(item):
    self._board[row_index][col_index] = None] *)
Fixpoint rapture_cols (sel : option piece -> bool) (r : Z) (cols : list Z) : M unit :=
  match cols with
  | [] => ret tt
  | c :: rest =>
      let! item := get_sq r c in
      let! _ := (if sel item then set_sq r c None else ret tt) in
      rapture_cols sel r rest
  end.

Fixpoint rapture_rows (sel : option piece -> bool) (rows : list (Z * list (option piece)))
    : M unit :=
  match rows with
  | [] => ret tt
  | (r, row) :: rest =>
      let! _ := rapture_cols sel r (py_range 0 (Z.of_nat (length row))) in
      rapture_rows sel rest
  end.

(** Python's [enumerate]. *)
Definition enumerate {A} (l : list A) : list (Z * A) :=
  zip (py_range 0 (Z.of_nat (length l))) l.

Definition rapture_loop (sel : option piece -> bool) : M unit :=
  let! b := gets _board in
  rapture_rows sel (enumerate b).

(** [type(item) is Pawn and item.get_color() == c] *)
Definition is_pawn_of (c : color) (item : option piece) : bool :=
  match item with Some p => is_pawn p && color_eqb (get_color p) c | None => false end.

Open Scope string_scope.

Definition rapture_pawns (color_ : option string) : M unit :=
  if py_str_eq color_ "b" then rapture_loop (is_pawn_of BLACK)
  else if py_str_eq color_ "w" then rapture_loop (is_pawn_of WHITE)
  else rapture_loop sq_is_pawn.

Close Scope string_scope.

(** ** Vocabulary of the further properties *)

(** An 8x8 board, as [initialize_board] builds it. *)
Definition wf_board (b : board) : Prop :=
  length b = 8%nat /\ Forall (fun row => length row = 8%nat) b.

(** Computations that keep the board 8x8 whenever they return. *)
Definition keeps_wf {A} (m : M A) : Prop :=
  forall g a g', wf_board (_board g) -> m g = Ok a g' -> wf_board (_board g').



(** The [_king_status] entries agree with [_game_state]: an unfinished
    game has both entries equal, a won game has exactly the loser's entry
    [False]. *)
Definition result_consistent (g : game) : Prop :=
  (_game_state g = UNFINISHED /\ king_white g = king_black g) \/
  (_game_state g = BLACK_WON /\ king_white g = false /\ king_black g = true) \/
  (_game_state g = WHITE_WON /\ king_white g = true /\ king_black g = false).

(** The squares strictly between [f] and [t] on the row, column or
    diagonal that joins them. *)
Definition strictly_between (f t : Z * Z) (r c : Z) : Prop :=
  exists k, 0 < k < Z.max (Z.abs (fst t - fst f)) (Z.abs (snd t - snd f)) /\
    r = fst f + k * Z.sgn (fst t - fst f) /\ c = snd f + k * Z.sgn (snd t - snd f).

(** Removing the Pawns of colour [c] ([Some c]) or all Pawns ([None]) from
    one square. *)
Definition clear_pawn (which : option color) (x : option piece) : option piece :=
  match x with
  | Some (Pawn pc f) =>
      match which with
      | None => None
      | Some c => if color_eqb pc c then None else x
      end
  | _ => x
  end.

(** The algebraic name of a square: file letter and rank digit. *)
Definition square_name (r c : Z) : string :=
  String (ascii_of_nat (97 + Z.to_nat c)) (String (ascii_of_nat (56 - Z.to_nat r)) EmptyString).

(** * Proofs *)

(** ** Monad and board lemmas *)

Lemma bind_inv {A B} (m : M A) (k : A -> M B) g b g' :
  bind m k g = Ok b g' -> exists a g1, m g = Ok a g1 /\ k a g1 = Ok b g'.
Proof. unfold bind. destruct (m g); eauto; discriminate. Qed.

Lemma bind_ok {A B} (m : M A) (k : A -> M B) g a g1 :
  m g = Ok a g1 -> bind m k g = k a g1.
Proof. unfold bind. intros ->. reflexivity. Qed.

Ltac step H a g Hm := apply bind_inv in H; destruct H as (a & g & Hm & H).

Lemma ret_inv {A} (x a : A) g g' : ret x g = Ok a g' -> a = x /\ g' = g.
Proof. unfold ret. intros H. inversion H. auto. Qed.

Lemma gets_inv {A} (f : game -> A) g a g' : gets f g = Ok a g' -> a = f g /\ g' = g.
Proof. unfold gets. intros H. inversion H. auto. Qed.

Lemma get_sq_inv r c g x g' :
  get_sq r c g = Ok x g' -> g' = g /\ square (_board g) r c = Some x.
Proof.
  unfold get_sq. destruct (square (_board g) r c) eqn:E; intros H; inversion H; subst; auto.
Qed.

Lemma read_only_ok {A} (m : M A) g a g' : read_only m -> m g = Ok a g' -> g' = g.
Proof. intros Hro Hm. specialize (Hro g). rewrite Hm in Hro. exact Hro. Qed.

Lemma read_only_ret {A} (x : A) : read_only (ret x).
Proof. intros g. reflexivity. Qed.

Lemma read_only_raise {A} e : read_only (@raise A e).
Proof. intros g. reflexivity. Qed.

Lemma read_only_gets {A} (f : game -> A) : read_only (gets f).
Proof. intros g. reflexivity. Qed.

Lemma read_only_get_sq r c : read_only (get_sq r c).
Proof. intros g. unfold get_sq. destruct (square _ r c); reflexivity. Qed.

Lemma read_only_bind {A B} (m : M A) (k : A -> M B) :
  read_only m -> (forall a, read_only (k a)) -> read_only (bind m k).
Proof.
  intros Hm Hk g. unfold bind. specialize (Hm g).
  destruct (m g) as [a g1|e g1]; simpl in *; subst; [apply Hk | reflexivity].
Qed.

Create HintDb ro.
#[local] Hint Resolve read_only_ret read_only_raise read_only_gets
  read_only_get_sq read_only_bind : ro.

Lemma read_only_path_clear cells : read_only (path_clear cells).
Proof.
  induction cells as [|[r c] rest IH]; simpl; auto with ro.
  apply read_only_bind; auto with ro. intros [x|]; auto with ro.
Qed.
#[local] Hint Resolve read_only_path_clear : ro.

Ltac ro_cases :=
  repeat match goal with
  | |- read_only (bind _ _) => apply read_only_bind; [|intros ?]
  | |- read_only (if ?b then _ else _) => destruct b
  | |- read_only (match ?x with _ => _ end) => destruct x
  | |- read_only _ => solve [auto with ro]
  end.

Lemma read_only_clear_path_straight f t : read_only (clear_path_straight f t).
Proof. destruct f, t. unfold clear_path_straight. ro_cases. Qed.

Lemma read_only_clear_path_diagonal f t : read_only (clear_path_diagonal f t).
Proof. destruct f, t. unfold clear_path_diagonal. ro_cases. Qed.

Lemma read_only_clear_path_pawn f t : read_only (clear_path_pawn f t).
Proof. destruct f, t. unfold clear_path_pawn. ro_cases. Qed.

Lemma read_only_pawn_capture f t c : read_only (pawn_capture f t c).
Proof. destruct f, t. unfold pawn_capture. ro_cases. Qed.

Lemma read_only_is_capture f t p : read_only (is_capture f t p).
Proof. unfold is_capture. ro_cases. Qed.
#[local] Hint Resolve read_only_clear_path_straight read_only_clear_path_diagonal
  read_only_clear_path_pawn read_only_pawn_capture read_only_is_capture : ro.

Lemma py_index_nonneg {A} (l : list A) i : 0 <= i -> py_index l i = l !! Z.to_nat i.
Proof. intros Hi. unfold py_index. destruct (Z.ltb_spec i 0); [lia | reflexivity]. Qed.

Lemma py_assign_nonneg {A} (l : list A) i x l' :
  0 <= i -> py_assign l i x = Some l' ->
  (Z.to_nat i < length l)%nat /\ l' = <[Z.to_nat i := x]> l.
Proof.
  intros Hi. unfold py_assign.
  destruct (Z.ltb_spec i 0); [lia|].
  destruct (Z.ltb_spec i 0), (Z.leb_spec (Z.of_nat (length l)) i); simpl;
    intros Hs; inversion Hs; subst; split; auto; lia.
Qed.

Lemma py_assign_in_range {A} (l : list A) i x y :
  0 <= i -> l !! Z.to_nat i = Some y -> py_assign l i x = Some (<[Z.to_nat i := x]> l).
Proof.
  intros Hi Hl. apply lookup_lt_Some in Hl. unfold py_assign.
  destruct (Z.ltb_spec i 0); [lia|].
  destruct (Z.ltb_spec i 0), (Z.leb_spec (Z.of_nat (length l)) i); simpl; auto; lia.
Qed.

(** Reading back after [self._board[r][c] = x], at non-negative indices. *)
Lemma set_sq_inv r c x g u g' :
  0 <= r -> 0 <= c ->
  set_sq r c x g = Ok u g' ->
  exists b', g' = set_board g b' /\
    forall r' c', 0 <= r' -> 0 <= c' ->
      square b' r' c' =
        if (r' =? r) && (c' =? c) then Some x else square (_board g) r' c'.
Proof.
  intros Hr Hc. unfold set_sq.
  destruct (py_index (_board g) r) as [row|] eqn:Erow; [|discriminate].
  destruct (py_assign row c x) as [row'|] eqn:Erow'; [|discriminate].
  destruct (py_assign (_board g) r row') as [b'|] eqn:Eb; [|discriminate].
  intros H. inversion H; subst. exists b'. split; [reflexivity|].
  intros r' c' Hr' Hc'.
  rewrite py_index_nonneg in Erow by lia.
  apply py_assign_nonneg in Erow' as [Hlt' ->]; [|lia].
  apply py_assign_nonneg in Eb as [Hlt ->]; [|lia].
  unfold square. rewrite !py_index_nonneg by lia.
  destruct (Z.eqb_spec r' r) as [->|Hne].
  - rewrite list_lookup_insert_eq by lia. rewrite Erow. simpl.
    rewrite !py_index_nonneg by lia.
    destruct (Z.eqb_spec c' c) as [->|Hne'].
    + rewrite list_lookup_insert_eq by lia. reflexivity.
    + rewrite list_lookup_insert_ne by lia. reflexivity.
  - simpl. rewrite list_lookup_insert_ne by lia. reflexivity.
Qed.

(** The assignment succeeds on a square that can be read. *)
Lemma set_sq_ok r c x g y :
  0 <= r -> 0 <= c -> square (_board g) r c = Some y ->
  exists b', set_sq r c x g = Ok tt (set_board g b').
Proof.
  intros Hr Hc. unfold square, set_sq.
  destruct (py_index (_board g) r) as [row|] eqn:Erow; [|discriminate].
  intros Hy. pose proof Erow as Erow0.
  rewrite py_index_nonneg in Erow by lia. rewrite py_index_nonneg in Hy by lia.
  rewrite (py_assign_in_range row c x y) by auto.
  rewrite (py_assign_in_range (_board g) r _ row) by auto.
  eauto.
Qed.

Lemma set_board_fields g b :
  _game_state (set_board g b) = _game_state g /\ _player_turn (set_board g b) = _player_turn g /\
  king_white (set_board g b) = king_white g /\ king_black (set_board g b) = king_black g.
Proof. repeat split. Qed.

(** ** Parsing *)

Lemma letter_to_num_range : Forall (fun kv => 0 <= snd kv <= 7) letter_to_num.
Proof. unfold letter_to_num. simpl. repeat constructor; simpl; lia. Qed.

Lemma assoc_lookup_range k d v :
  Forall (fun kv => 0 <= snd kv <= 7) d -> assoc_lookup k d = Some v -> 0 <= v <= 7.
Proof.
  induction d as [|[k' v'] d IH]; simpl; [discriminate|].
  intros Hall. inversion Hall; subst.
  destruct (Ascii.eqb k k'); [intros Hv; inversion Hv; subst; auto | auto].
Qed.

(** A parsed square is [(-1, -1)] or has a row in 0..8 and a column in 0..7. *)
Lemma parse_range s r c :
  notation_to_board_pos s = (r, c) ->
  (r = -1 /\ c = -1) \/ (0 <= r <= 8 /\ 0 <= c <= 7).
Proof.
  unfold notation_to_board_pos.
  destruct (_ || _); [intros H; inversion H; auto|].
  destruct s as [|c0 [|c1 [|c2 s]]]; try (intros H; inversion H; auto; fail).
  destruct (negb (isalpha c0)); [intros H; inversion H; auto|].
  destruct (negb (isnumeric c1)); [intros H; inversion H; auto|].
  destruct ((py_int c1 <? 0) || (8 <? py_int c1)) eqn:Ei; [intros H; inversion H; auto|].
  apply orb_false_iff in Ei as [Ei1 Ei2].
  apply Z.ltb_ge in Ei1. apply Z.ltb_ge in Ei2.
  destruct (assoc_lookup (lower c0) letter_to_num) as [col|] eqn:El;
    intros H; inversion H; subst; auto.
  right. pose proof (assoc_lookup_range _ _ _ letter_to_num_range El). lia.
Qed.

Lemma pos_eqb_false a b : pos_eqb a b = false -> a <> b.
Proof.
  destruct a, b. unfold pos_eqb. simpl. intros H Heq. inversion Heq; subst.
  rewrite !Z.eqb_refl in H. discriminate.
Qed.

Lemma pos_eqb_true a b : pos_eqb a b = true -> a = b.
Proof.
  destruct a, b. unfold pos_eqb. simpl. intros H.
  apply andb_true_iff in H as [H1 H2]. apply Z.eqb_eq in H1, H2. subst. reflexivity.
Qed.

(** ** The validity checks *)

Lemma piece_move_same dir n p v p' : piece_move dir n p = (v, p') -> same_piece p p'.
Proof.
  destruct p as [c|c|c|c|c|c f]; simpl; intros H; inversion H; subst;
    try (left; reflexivity).
  destruct (pawn_is_valid_move c f dir n) as [v0 f'].
  inversion H; subst. right. eauto.
Qed.

(** Unfold [bind]/[ret]/branches in a hypothesis [m g = Ok _ _]. *)
Ltac crush H :=
  repeat (cbv beta in H;
    match type of H with
    | bind _ _ _ = Ok _ _ =>
        let a := fresh "a" in let g := fresh "g" in let Hm := fresh "Hm" in
        step H a g Hm
    | ret _ _ = Ok _ _ => apply ret_inv in H; destruct H; subst
    | raise _ _ = Ok _ _ => discriminate H
    | (if ?b then _ else _) _ = Ok _ _ => destruct b
    | (match ?x with _ => _ end) _ = Ok _ _ => destruct x
    end).

Lemma clear_path_pawn_not_pc f t g v g' :
  clear_path_pawn f t g = Ok v g' -> v <> PPawnCapture.
Proof.
  destruct f, t. unfold clear_path_pawn. intros H. crush H; try discriminate.
  all: destruct a; discriminate.
Qed.

Lemma pawn_capture_true f t c g g' :
  pawn_capture f t c g = Ok true g' ->
  g' = g /\ exists q, square (_board g) (fst t) (snd t) = Some (Some q).
Proof.
  intros H. split; [exact (read_only_ok _ _ _ _ (read_only_pawn_capture f t c) H)|].
  destruct f as [fr fc], t as [tr tc]. unfold pawn_capture in H.
  step H cap g1 Hm.
  assert (g1 = g) as ->.
  { eapply read_only_ok; [|exact Hm]. ro_cases. }
  destruct cap; [|apply ret_inv in H as [? _]; discriminate].
  step H ts g2 Hm2. apply get_sq_inv in Hm2 as [-> Hsq].
  destruct ts as [q|]; [eauto | discriminate].
Qed.

Lemma is_capture_inv f t p g cr g' :
  is_capture f t p g = Ok cr g' ->
  g' = g /\
  (cr = CFalse -> square (_board g) (fst t) (snd t) = Some None) /\
  (cr = CTrue -> exists q, square (_board g) (fst t) (snd t) = Some (Some q)).
Proof.
  unfold is_capture. intros H. step H ts g1 Hm. apply get_sq_inv in Hm as [-> Hsq].
  destruct ts as [q|]; crush H; repeat split; eauto; discriminate.
Qed.

Lemma valid_move_inv f t p g v g' :
  0 <= fst f -> 0 <= snd f ->
  valid_move f t p g = Ok v g' ->
  (g' = g \/ exists p', same_piece p p' /\ set_sq (fst f) (snd f) (Some p') g = Ok tt g') /\
  (v = PPawnCapture -> exists q, square (_board g') (fst t) (snd t) = Some (Some q)).
Proof.
  intros Hf1 Hf2. unfold valid_move.
  destruct (move_direction f t p) as [dir|].
  2:{ intros H. apply ret_inv in H as [-> ->]. split; [auto | discriminate]. }
  destruct (piece_move dir (move_distance f t dir) p) as [pmv p'] eqn:Epm.
  intros H. step H u g1 Hset. destruct u.
  assert (g' = g1) as ->.
  { eapply read_only_ok; [|exact H]. ro_cases. }
  split; [right; exists p'; split; [eapply piece_move_same; eauto | exact Hset]|].
  intros ->. destruct pmv; crush H; try discriminate;
    try (match goal with a : bool |- _ => destruct a; discriminate end).
  all: match goal with
       | Hc : clear_path_pawn _ _ _ = Ok PPawnCapture _ |- _ =>
           exfalso; exact (clear_path_pawn_not_pc _ _ _ _ _ Hc eq_refl)
       | Hc : pawn_capture _ _ _ _ = Ok true _ |- _ =>
           apply pawn_capture_true in Hc as [_ Hq]; exact Hq
       end.
Qed.

Ltac reject_case H Hwb fr fc p :=
  apply ret_inv in H as [-> ->]; left; split; [reflexivity|];
  destruct Hwb as [->|[p' [Hs Hset]]];
  [left; reflexivity | right; exists fr, fc, p, p'; repeat split; auto; lia].

(** ** The paths through [make_move]

    A call that returns either rejects (the game is untouched, except for
    the write-back of the moving piece done by [valid_move]), or reaches
    [update_board] with [capture = True] on an occupied destination, or
    with [capture = False] on an empty one.  [g2] is the state after the
    validity checks. *)
Lemma make_move_inv a b g r g' :
  make_move a b g = Ok r g' ->
  (r = false /\
     (g' = g \/ exists fr fc p p', notation_to_board_pos a = (fr, fc) /\
        0 <= fr /\ 0 <= fc /\ square (_board g) fr fc = Some (Some p) /\
        same_piece p p' /\ set_sq fr fc (Some p') g = Ok tt g'))
  \/ exists fr fc tr tc p g2,
      notation_to_board_pos a = (fr, fc) /\ notation_to_board_pos b = (tr, tc) /\
      0 <= fr <= 8 /\ 0 <= fc <= 7 /\ 0 <= tr <= 8 /\ 0 <= tc <= 7 /\
      (fr, fc) <> (tr, tc) /\ _game_state g = UNFINISHED /\
      square (_board g) fr fc = Some (Some p) /\ get_color p = _player_turn g /\
      (g2 = g \/ exists p', same_piece p p' /\ set_sq fr fc (Some p') g = Ok tt g2) /\
      ((exists q, square (_board g2) tr tc = Some (Some q) /\
                  update_board (fr, fc) (tr, tc) true g2 = Ok r g') \/
       (square (_board g2) tr tc = Some None /\
        update_board (fr, fc) (tr, tc) false g2 = Ok r g')).
Proof.
  intros H. unfold make_move in H.
  step H st g1 Hm. apply gets_inv in Hm as [-> ->].
  destruct (negb (game_state_eqb (_game_state g) UNFINISHED)) eqn:Egs.
  { apply ret_inv in H as [-> ->]. left. auto. }
  assert (_game_state g = UNFINISHED) as Hun.
  { destruct (_game_state g); simpl in Egs; congruence. }
  cbv zeta in H.
  destruct (notation_to_board_pos a) as [fr fc] eqn:Ea.
  destruct (notation_to_board_pos b) as [tr tc] eqn:Eb.
  destruct (pos_eqb (fr, fc) (-1, -1) || pos_eqb (tr, tc) (-1, -1)) eqn:Einv.
  { apply ret_inv in H as [-> ->]. left. auto. }
  apply orb_false_iff in Einv as [Ein1 Ein2].
  apply pos_eqb_false in Ein1, Ein2.
  assert (0 <= fr <= 8 /\ 0 <= fc <= 7) as [Hfr Hfc].
  { destruct (parse_range _ _ _ Ea) as [[-> ->]|]; [congruence | auto]. }
  assert (0 <= tr <= 8 /\ 0 <= tc <= 7) as [Htr Htc].
  { destruct (parse_range _ _ _ Eb) as [[-> ->]|]; [congruence | auto]. }
  step H x g2 Hm. apply get_sq_inv in Hm as [-> Hsq]. simpl in Hsq.
  destruct x as [p|]; [|apply ret_inv in H as [-> ->]; left; auto].
  destruct (pos_eqb (fr, fc) (tr, tc)) eqn:Esame.
  { apply ret_inv in H as [-> ->]. left. auto. }
  apply pos_eqb_false in Esame.
  step H turn g3 Hm. apply gets_inv in Hm as [-> ->].
  destruct (negb (color_eqb (get_color p) (_player_turn g))) eqn:Ecol.
  { apply ret_inv in H as [-> ->]. left. auto. }
  assert (get_color p = _player_turn g) as Hcol.
  { destruct (get_color p), (_player_turn g); simpl in Ecol; congruence. }
  step H valid g4 Hm.
  assert ((g4 = g \/ exists p', same_piece p p' /\ set_sq fr fc (Some p') g = Ok tt g4) /\
          (valid = PPawnCapture -> exists q, square (_board g4) tr tc = Some (Some q)))
    as [Hwb Hpc].
  { destruct (is_knight p).
    - apply ret_inv in Hm as [-> ->]. split; [auto|].
      destruct (knight_is_valid_move _ _); discriminate.
    - apply valid_move_inv in Hm; simpl in *; auto; lia. }
  destruct valid.
  - reject_case H Hwb fr fc p.
  - simpl in H. step H cap g5 Hic. apply is_capture_inv in Hic as [-> [Hcf Hct]].
    simpl in Hcf, Hct.
    destruct cap.
    + right. exists fr, fc, tr, tc, p, g4. repeat split; auto; try lia.
    + right. exists fr, fc, tr, tc, p, g4. repeat split; auto; try lia.
      left. destruct (Hct eq_refl) as [q Hq]. eauto.
    + reject_case H Hwb fr fc p.
    + reject_case H Hwb fr fc p.
  - reject_case H Hwb fr fc p.
  - right. exists fr, fc, tr, tc, p, g4. repeat split; auto; try lia.
    left. destruct (Hpc eq_refl) as [q Hq]. eauto.
Qed.

Lemma pair_neq_eqb r c r' c' : (r, c) <> (r', c') -> (r =? r') && (c =? c') = false.
Proof. intros H. destruct (Z.eqb_spec r r'), (Z.eqb_spec c c'); subst; simpl; congruence. Qed.

(** The write-back of the moving piece changes only its own square. *)
Lemma write_back_inv g g2 fr fc p :
  0 <= fr -> 0 <= fc -> square (_board g) fr fc = Some (Some p) ->
  (g2 = g \/ exists p', same_piece p p' /\ set_sq fr fc (Some p') g = Ok tt g2) ->
  (exists p', same_piece p p' /\ square (_board g2) fr fc = Some (Some p')) /\
  (forall r c, 0 <= r -> 0 <= c -> (r, c) <> (fr, fc) ->
     square (_board g2) r c = square (_board g) r c) /\
  _game_state g2 = _game_state g /\ _player_turn g2 = _player_turn g /\
  king_white g2 = king_white g /\ king_black g2 = king_black g.
Proof.
  intros Hfr Hfc Hsq [->|[p' [Hs Hset]]].
  - repeat split; auto. exists p. split; [left; reflexivity | exact Hsq].
  - apply set_sq_inv in Hset as [b' [-> Hb]]; auto.
    repeat split; auto.
    + exists p'. split; [exact Hs|]. rewrite Hb by lia. rewrite !Z.eqb_refl. reflexivity.
    + intros r c Hr Hc Hne. rewrite Hb by lia. rewrite pair_neq_eqb by exact Hne.
      reflexivity.
Qed.

(** [update_board] with [capture = False]: the turn flips and the piece
    goes from [f] to [t]. *)
Lemma update_board_false_inv fr fc tr tc g r g' :
  0 <= fr -> 0 <= fc -> 0 <= tr -> 0 <= tc -> (fr, fc) <> (tr, tc) ->
  update_board (fr, fc) (tr, tc) false g = Ok r g' ->
  r = true /\ _player_turn g' = opponent (_player_turn g) /\
  _game_state g' = _game_state g /\
  king_white g' = king_white g /\ king_black g' = king_black g /\
  (exists x, square (_board g) fr fc = Some x /\ square (_board g') tr tc = Some x) /\
  square (_board g') fr fc = Some None /\
  (forall r c, 0 <= r -> 0 <= c -> (r, c) <> (fr, fc) -> (r, c) <> (tr, tc) ->
     square (_board g') r c = square (_board g) r c).
Proof.
  intros Hfr Hfc Htr Htc Hne H. unfold update_board in H.
  step H u g1 Hturn. unfold update_turn, modify in Hturn. inversion Hturn; subst. clear Hturn.
  simpl in H. unfold move_piece in H. simpl in H.
  step H u2 g2 Hmp. apply ret_inv in H as [-> ->].
  step Hmp x g3 Hget. apply get_sq_inv in Hget as [-> Hx].
  step Hmp u3 g4 Hset1.
  apply set_sq_inv in Hset1 as [b1 [-> Hb1]]; auto.
  apply set_sq_inv in Hmp as [b2 [-> Hb2]]; auto.
  simpl in *. repeat split; auto.
  - exists x. split; [exact Hx|]. rewrite Hb2 by lia.
    rewrite pair_neq_eqb by congruence. rewrite Hb1 by lia. rewrite !Z.eqb_refl. reflexivity.
  - rewrite Hb2 by lia. rewrite !Z.eqb_refl. reflexivity.
  - intros r c Hr Hc Hn1 Hn2. rewrite Hb2 by lia.
    rewrite pair_neq_eqb by congruence. rewrite Hb1 by lia.
    rewrite pair_neq_eqb by congruence. reflexivity.
Qed.

Lemma pos_eqb_neq x y : x <> y -> pos_eqb x y = false.
Proof.
  destruct x as [x1 x2], y as [y1 y2]. unfold pos_eqb. simpl. intros H.
  destruct (Z.eqb_spec x1 y1), (Z.eqb_spec x2 y2); subst; simpl; congruence.
Qed.

Lemma get_sq_ok r c g x : square (_board g) r c = Some x -> get_sq r c g = Ok x g.
Proof. unfold get_sq. intros ->. reflexivity. Qed.

(** [update_board] with [capture = False] returns [True] when both
    squares can be read. *)
Lemma update_board_false_ok fr fc tr tc g x y :
  0 <= fr -> 0 <= fc -> 0 <= tr -> 0 <= tc ->
  square (_board g) fr fc = Some x -> square (_board g) tr tc = Some y ->
  exists g', update_board (fr, fc) (tr, tc) false g = Ok true g'.
Proof.
  intros Hfr Hfc Htr Htc Hx Hy.
  set (g1 := mkGame (_board g) (_game_state g) (opponent (_player_turn g))
                    (king_white g) (king_black g)).
  assert (update_turn g = Ok tt g1) as Hturn.
  { unfold update_turn, modify, g1. destruct (_player_turn g); reflexivity. }
  destruct (set_sq_ok tr tc x g1 y) as [b1 Hs1]; auto.
  assert (square b1 fr fc = Some x) as Hx1.
  { apply set_sq_inv in Hs1 as [b1' [Heq Hb1]]; auto.
    unfold set_board in Heq. inversion Heq; subst.
    rewrite Hb1 by lia.
    destruct ((fr =? tr) && (fc =? tc)); [reflexivity | exact Hx]. }
  destruct (set_sq_ok fr fc None (set_board g1 b1) x) as [b2 Hs2]; auto.
  exists (set_board (set_board g1 b1) b2).
  unfold update_board. rewrite (bind_ok _ _ _ _ _ Hturn). simpl.
  unfold move_piece, bind. simpl.
  rewrite (get_sq_ok fr fc g1 x) by exact Hx.
  rewrite Hs1, Hs2. reflexivity.
Qed.

(** ** Claims *)

(** C8: once the game state is not "UNFINISHED", [make_move] returns
    [False] for any two inputs and leaves the whole game unchanged. *)
Theorem finished_game_rejects_all a b g :
  _game_state g <> UNFINISHED -> make_move a b g = Ok false g.
Proof.
  intros Hfin. unfold make_move, bind, gets, ret. cbv beta iota.
  destruct (_game_state g); [congruence | reflexivity | reflexivity].
Qed.

(** C10: an accepted non-capturing move (its destination square is empty)
    empties its origin and puts the moved piece on its destination (the
    same object: only a Pawn's [_is_first_turn] may have been assigned by
    validation); every other square, both [_king_status] entries and the
    game state are unchanged, and the turn passes to the other player. *)
Theorem noncapture_move_frame a b g g' fr fc tr tc :
  notation_to_board_pos a = (fr, fc) -> notation_to_board_pos b = (tr, tc) ->
  square (_board g) tr tc = Some None ->
  make_move a b g = Ok true g' ->
  _player_turn g' = opponent (_player_turn g) /\ _game_state g' = _game_state g /\
  king_white g' = king_white g /\ king_black g' = king_black g /\
  square (_board g') fr fc = Some None /\
  (exists p p', square (_board g) fr fc = Some (Some p) /\ same_piece p p' /\
                square (_board g') tr tc = Some (Some p')) /\
  (forall r c, on_board r c -> (r, c) <> (fr, fc) -> (r, c) <> (tr, tc) ->
     square (_board g') r c = square (_board g) r c).
Proof.
  intros Ea Eb Hempty H.
  apply make_move_inv in H as [[Hf _]|(fr' & fc' & tr' & tc' & p & g2 & Ea' & Eb' & Hfr & Hfc &
    Htr & Htc & Hne & Hun & Hsq & Hcol & Hwb & Hpath)]; [discriminate|].
  rewrite Ea in Ea'. rewrite Eb in Eb'. injection Ea' as <- <-. injection Eb' as <- <-.
  destruct (write_back_inv g g2 fr fc p) as ([p' [Hsame Hp']] & Hother & Hgs & Hturn & Hkw & Hkb);
    auto; try lia.
  destruct Hpath as [[q [Hq _]]|[Hto Hub]].
  - rewrite Hother in Hq by (lia || congruence). congruence.
  - apply update_board_false_inv in Hub
      as (_ & Ht & Hs & Hw & Hb & [x [Hx Hxt]] & Hfrom & Hrest); try lia; auto.
    repeat split; try congruence.
    + exists p, p'. repeat split; auto. congruence.
    + intros r c [Hr Hc] Hn1 Hn2. rewrite Hrest by (lia || auto).
      apply Hother; (lia || auto).
Qed.

(** C7: a knight's move is legal exactly when the absolute row and column
    deltas are 2 and 1 or 1 and 2 ([Knight.is_valid_move]); on any board
    holding the mover's knight on the origin and nothing on the
    destination, whatever the other squares hold, [make_move] returns
    exactly that verdict. *)
Theorem knight_legality_by_deltas a b g fr fc tr tc c :
  notation_to_board_pos a = (fr, fc) -> notation_to_board_pos b = (tr, tc) ->
  on_board fr fc -> on_board tr tc -> (fr, fc) <> (tr, tc) ->
  _game_state g = UNFINISHED -> _player_turn g = c ->
  square (_board g) fr fc = Some (Some (Knight c)) ->
  square (_board g) tr tc = Some None ->
  (knight_is_valid_move (fr, fc) (tr, tc) = true <->
     (Z.abs (fr - tr) = 2 /\ Z.abs (fc - tc) = 1) \/
     (Z.abs (fr - tr) = 1 /\ Z.abs (fc - tc) = 2)) /\
  exists g', make_move a b g = Ok (knight_is_valid_move (fr, fc) (tr, tc)) g'.
Proof.
  intros Ea Eb [Hf1 Hf2] [Ht1 Ht2] Hne Hun Hturn Hsf Hst.
  split.
  { unfold knight_is_valid_move. simpl.
    destruct (Z.eqb_spec (Z.abs (fr - tr)) 2), (Z.eqb_spec (Z.abs (fc - tc)) 1),
      (Z.eqb_spec (Z.abs (fr - tr)) 1), (Z.eqb_spec (Z.abs (fc - tc)) 2);
      simpl; split; intros; try lia; auto. }
  unfold make_move, bind, gets, ret. cbv zeta. rewrite Hun, Ea, Eb.
  rewrite (pos_eqb_neq (fr, fc) (-1, -1)), (pos_eqb_neq (tr, tc) (-1, -1)),
    (pos_eqb_neq (fr, fc) (tr, tc)) by (auto; intros Heq; inversion Heq; lia).
  cbn [negb orb game_state_eqb fst snd].
  rewrite (get_sq_ok fr fc g _ Hsf). rewrite Hturn.
  destruct c; cbn [get_color color_eqb negb is_knight].
  all: destruct (knight_is_valid_move (fr, fc) (tr, tc)); cbn [of_bool truthy];
    [|eexists; reflexivity].
  all: unfold is_capture, bind; cbn [fst snd]; rewrite (get_sq_ok tr tc g _ Hst);
    unfold ret; eapply update_board_false_ok; eauto; lia.
Qed.

(** ** Explosions *)

Lemma off_board_false r c : off_board r c = false <-> on_board r c.
Proof.
  unfold off_board, on_board. rewrite !orb_false_iff, Z.ltb_ge, Z.ltb_ge, Z.gtb_ltb,
    Z.gtb_ltb, !Z.ltb_ge. lia.
Qed.

Lemma explosion_cells_spec tr tc r c :
  (r, c) ∈ explosion_cells (tr, tc) <-> in_blast (tr, tc) r c = true.
Proof.
  unfold in_blast. simpl. rewrite andb_true_iff, !Z.leb_le.
  unfold explosion_cells. simpl. rewrite list_elem_of_In. simpl. split.
  - intros H. repeat match goal with H : _ \/ _ |- _ => destruct H as [H|H] end;
      try contradiction; injection H as <- <-; lia.
  - intros [H1 H2].
    assert (r = tr - 1 \/ r = tr \/ r = tr + 1) as Hr by lia.
    assert (c = tc - 1 \/ c = tc \/ c = tc + 1) as Hc by lia.
    destruct Hr as [-> | [-> | ->]]; destruct Hc as [-> | [-> | ->]];
      repeat (first [left; f_equal; lia | right]).
Qed.

Lemma king_mark_inv p g u g' :
  (if is_king p then
     if color_eqb (get_color p) WHITE
     then modify (set_king_status WHITE false)
     else modify (set_king_status BLACK false)
   else ret tt) g = Ok u g' ->
  _board g' = _board g /\ _game_state g' = _game_state g /\ _player_turn g' = _player_turn g /\
  (king_white g = false -> king_white g' = false) /\
  (king_black g = false -> king_black g' = false).
Proof.
  destruct (is_king p); [destruct (color_eqb (get_color p) WHITE)|];
    unfold modify, ret; intros H; inversion H; subst; simpl; auto.
Qed.

(** The scanning loop reads every on-board cell, touches only the
    [_king_status] entries (only ever setting them [False]), and collects
    exactly the occupied on-board cells. *)
Lemma explosion_scan_inv cells el g l g' :
  explosion_scan cells el g = Ok l g' ->
  _board g' = _board g /\ _game_state g' = _game_state g /\
  _player_turn g' = _player_turn g /\
  (king_white g = false -> king_white g' = false) /\
  (king_black g = false -> king_black g' = false) /\
  (forall r c, (r, c) ∈ cells -> on_board r c -> exists x, square (_board g) r c = Some x) /\
  (forall r c, (r, c) ∈ l <-> (r, c) ∈ el \/
     ((r, c) ∈ cells /\ on_board r c /\ exists q, square (_board g) r c = Some (Some q))).
Proof.
  revert el g. induction cells as [|[r0 c0] rest IH]; intros el g H; simpl in H.
  - apply ret_inv in H as [-> ->].
    refine (conj eq_refl (conj eq_refl (conj eq_refl (conj _ (conj _ (conj _ _)))))); auto.
    + intros r c Hin. apply elem_of_nil in Hin. contradiction.
    + intros r c. split; [intros Hin; left; exact Hin|].
      intros [Hin|[Hin _]]; [exact Hin | apply elem_of_nil in Hin; contradiction].
  - destruct (off_board r0 c0) eqn:Eoff.
    + apply IH in H as (Hb & Hs & Ht & Hw & Hk & Hread & Hmem).
      refine (conj Hb (conj Hs (conj Ht (conj Hw (conj Hk (conj _ _)))))).
      * intros r c Hin Hon. apply elem_of_cons in Hin as [Heq|Hin]; [|auto].
        injection Heq as -> ->. apply off_board_false in Hon. congruence.
      * intros r c. split.
        -- intros Hin. apply Hmem in Hin as [Hin|(Hin & Hon & Hq)]; [auto|].
           right. split; [apply elem_of_cons; auto | split; auto].
        -- intros Hin. apply Hmem. destruct Hin as [Hin|(Hin & Hon & Hq)]; [auto|].
           apply elem_of_cons in Hin as [Heq|Hin].
           ++ injection Heq as -> ->. apply off_board_false in Hon. congruence.
           ++ right. auto.
    + apply off_board_false in Eoff.
      step H x g1 Hget. apply get_sq_inv in Hget as [-> Hx].
      destruct x as [p|].
      * step H u g2 Hk. apply king_mark_inv in Hk as (Hb2 & Hs2 & Ht2 & Hw2 & Hk2).
        apply IH in H as (Hb & Hs & Ht & Hw & Hk & Hread & Hmem).
        rewrite Hb2 in Hread, Hmem.
        refine (conj _ (conj _ (conj _ (conj _ (conj _ (conj _ _)))))); try congruence; auto.
        -- intros r c Hin Hon. apply elem_of_cons in Hin as [Heq|Hin]; [|auto].
           injection Heq as -> ->. eauto.
        -- intros r c. split.
           ++ intros Hin. apply Hmem in Hin as [Hin|(Hin & Hon & Hq)].
              ** apply elem_of_app in Hin as [Hin|Hin]; [auto|].
                 apply list_elem_of_singleton in Hin. injection Hin as -> ->.
                 right. split; [apply elem_of_cons; auto | split; [auto | eauto]].
              ** right. split; [apply elem_of_cons; auto | split; auto].
           ++ intros Hin. apply Hmem. destruct Hin as [Hin|(Hin & Hon & Hq)].
              ** left. apply elem_of_app. auto.
              ** apply elem_of_cons in Hin as [Heq|Hin].
                 --- injection Heq as -> ->. left. apply elem_of_app. right.
                     apply list_elem_of_singleton. reflexivity.
                 --- right. auto.
      * apply IH in H as (Hb & Hs & Ht & Hw & Hk & Hread & Hmem).
        refine (conj Hb (conj Hs (conj Ht (conj Hw (conj Hk (conj _ _)))))).
        -- intros r c Hin Hon. apply elem_of_cons in Hin as [Heq|Hin]; [|auto].
           injection Heq as -> ->. eauto.
        -- intros r c. split.
           ++ intros Hin. apply Hmem in Hin as [Hin|(Hin & Hon & Hq)]; [auto|].
              right. split; [apply elem_of_cons; auto | split; auto].
           ++ intros Hin. apply Hmem. destruct Hin as [Hin|(Hin & Hon & [q Hq])]; [auto|].
              apply elem_of_cons in Hin as [Heq|Hin].
              ** injection Heq as -> ->. congruence.
              ** right. eauto.
Qed.

Lemma holds_pawn_some x : holds_pawn (Some x) = sq_is_pawn x.
Proof. destruct x; reflexivity. Qed.

Lemma bool_decide_cons_ne (rc rc0 : Z * Z) rest :
  rc <> rc0 -> bool_decide (rc ∈ rc0 :: rest) = bool_decide (rc ∈ rest).
Proof.
  intros Hne. apply bool_decide_ext. rewrite elem_of_cons. split; [|auto].
  intros [Heq|Hin]; [contradiction | exact Hin].
Qed.

(** The removal loop empties the listed squares that do not hold a Pawn. *)
Lemma explode_items_inv items g u g' :
  Forall (fun rc => 0 <= fst rc /\ 0 <= snd rc) items ->
  explode_items items g = Ok u g' ->
  _game_state g' = _game_state g /\ _player_turn g' = _player_turn g /\
  king_white g' = king_white g /\ king_black g' = king_black g /\
  forall r c, 0 <= r -> 0 <= c ->
    square (_board g') r c =
      if bool_decide ((r, c) ∈ items) && negb (holds_pawn (square (_board g) r c))
      then Some None else square (_board g) r c.
Proof.
  revert g. induction items as [|[r0 c0] rest IH]; intros g Hall H; simpl in H.
  - apply ret_inv in H as [-> ->]. split; [reflexivity|]. split; [reflexivity|].
    split; [reflexivity|]. split; [reflexivity|]. intros r c _ _.
    rewrite bool_decide_eq_false_2 by (intros Hin; apply elem_of_nil in Hin; contradiction).
    reflexivity.
  - inversion Hall as [|? ? [Hr0 Hc0] Hrest]; subst. simpl in Hr0, Hc0.
    step H x g1 Hget. apply get_sq_inv in Hget as [-> Hx].
    destruct (sq_is_pawn x) eqn:Ep.
    + apply IH in H as (Hs & Ht & Hw & Hk & Hsq); auto.
      repeat split; auto. intros r c Hr Hc. rewrite Hsq by lia.
      destruct (decide ((r, c) = (r0, c0))) as [Heq|Hne].
      * injection Heq as -> ->. rewrite Hx, holds_pawn_some, Ep, !andb_false_r. reflexivity.
      * rewrite bool_decide_cons_ne by exact Hne. reflexivity.
    + step H u1 g2 Hset. apply set_sq_inv in Hset as [b2 [-> Hb2]]; auto.
      apply IH in H as (Hs & Ht & Hw & Hk & Hsq); auto.
      simpl in Hs, Ht, Hw, Hk. repeat split; auto. intros r c Hr Hc.
      rewrite Hsq by lia. cbn [_board set_board]. rewrite !Hb2 by lia.
      destruct (decide ((r, c) = (r0, c0))) as [Heq|Hne].
      * injection Heq as -> ->. rewrite !Z.eqb_refl. cbn [andb holds_pawn negb].
        rewrite (bool_decide_eq_true_2 ((r0, c0) ∈ (r0, c0) :: rest))
          by (apply elem_of_cons; left; reflexivity).
        rewrite Hx, holds_pawn_some, Ep. cbn [andb negb].
        destruct (bool_decide ((r0, c0) ∈ rest)); reflexivity.
      * rewrite pair_neq_eqb by exact Hne. rewrite bool_decide_cons_ne by exact Hne.
        reflexivity.
Qed.

(** A successful explosion at [(tr, tc)]: every on-board square of the
    3x3 neighbourhood other than the centre loses its piece unless it is
    a Pawn; the centre (if on the board) is emptied whatever it holds;
    squares outside the neighbourhood are untouched. *)
Lemma explosion_true_inv tr tc g g' :
  0 <= tr -> 0 <= tc ->
  explosion (tr, tc) g = Ok true g' ->
  _game_state g' = _game_state g /\ _player_turn g' = _player_turn g /\
  (on_board tr tc -> square (_board g') tr tc = Some None) /\
  (forall r c, on_board r c -> (r, c) <> (tr, tc) ->
     square (_board g') r c =
       if in_blast (tr, tc) r c && negb (holds_pawn (square (_board g) r c))
       then Some None else square (_board g) r c).
Proof.
  intros Htr Htc H. unfold explosion in H.
  step H l g1 Hscan.
  apply explosion_scan_inv in Hscan as (Hb1 & Hs1 & Ht1 & _ & _ & Hread & Hmem).
  step H kw g2 Hkw. apply gets_inv in Hkw as [-> ->].
  step H kb g3 Hkb. apply gets_inv in Hkb as [-> ->].
  destruct (negb (king_white g1) && negb (king_black g1)).
  { apply ret_inv in H as [? _]. discriminate. }
  step H cs g4 Hcs. apply get_sq_inv in Hcs as [-> Hcs]. simpl in Hcs.
  step H u g5 Hcap.
  assert (Forall (fun rc => 0 <= fst rc /\ 0 <= snd rc) l) as Hall.
  { apply Forall_forall. intros [r c] Hin. apply Hmem in Hin as [Hin|(_ & [Hr Hc] & _)].
    - apply elem_of_nil in Hin. contradiction.
    - simpl. lia. }
  assert (forall r c, on_board r c -> in_blast (tr, tc) r c = true ->
            (r, c) ∈ l <-> exists q, square (_board g) r c = Some (Some q)) as Hl1.
  { intros r c Hon Eb. rewrite Hmem.
    split; [intros [Hin|(_ & _ & Hq)]; [apply elem_of_nil in Hin; contradiction | exact Hq]|].
    intros Hq. right. split; [apply explosion_cells_spec; exact Eb | auto]. }
  assert (forall r c, in_blast (tr, tc) r c = false -> (r, c) ∉ l) as Hl2.
  { intros r c Eb Hin. apply Hmem in Hin as [Hin|(Hin & _ & _)].
    - apply elem_of_nil in Hin. contradiction.
    - apply explosion_cells_spec in Hin. congruence. }
  assert (forall r c, on_board r c -> in_blast (tr, tc) r c = true ->
            exists x, square (_board g) r c = Some x) as Hrd.
  { intros r c Hon Hb. apply Hread; auto. apply explosion_cells_spec. exact Hb. }
  assert (in_blast (tr, tc) tr tc = true) as Hc0.
  { unfold in_blast. simpl. rewrite !Z.sub_diag. reflexivity. }
  assert (forall r c, on_board r c -> (r, c) <> (tr, tc) ->
            (if bool_decide ((r, c) ∈ l) && negb (holds_pawn (square (_board g) r c))
             then Some None else square (_board g) r c) =
            (if in_blast (tr, tc) r c && negb (holds_pawn (square (_board g) r c))
             then Some None else square (_board g) r c)) as Hrest.
  { intros r c Hon _.
    destruct (in_blast (tr, tc) r c) eqn:Eb.
    - destruct (Hrd r c Hon Eb) as [[q|] Hx]; rewrite Hx.
      + rewrite bool_decide_eq_true_2 by (apply (Hl1 r c Hon Eb); eauto). reflexivity.
      + rewrite bool_decide_eq_false_2 by (rewrite (Hl1 r c Hon Eb); intros [q Hq]; congruence).
        reflexivity.
    - rewrite bool_decide_eq_false_2 by (apply Hl2; exact Eb). reflexivity. }
  destruct (sq_is_pawn cs) eqn:Ecs.
  - apply set_sq_inv in Hcap as [b5 [-> Hb5]]; auto.
    step H u2 g6 Hitems. apply ret_inv in H as [_ ->].
    apply explode_items_inv in Hitems as (Hs6 & Ht6 & _ & _ & Hsq); auto.
    simpl in Hs6, Ht6. split; [congruence|]. split; [congruence|]. split.
    + intros Hon. rewrite Hsq by lia. simpl. rewrite Hb5 by lia. rewrite !Z.eqb_refl.
      simpl. destruct (bool_decide _); reflexivity.
    + intros r c Hon Hne. rewrite Hsq by (destruct Hon; lia). cbn [_board set_board].
      rewrite !Hb5 by (destruct Hon; lia). rewrite pair_neq_eqb by exact Hne.
      rewrite Hb1. apply Hrest; assumption.
  - apply ret_inv in Hcap as [_ ->].
    step H u2 g6 Hitems. apply ret_inv in H as [_ ->].
    apply explode_items_inv in Hitems as (Hs6 & Ht6 & _ & _ & Hsq); auto.
    split; [congruence|]. split; [congruence|]. split.
    + intros Hon. rewrite Hsq by lia. rewrite Hb1. rewrite Hb1 in Hcs. rewrite Hcs.
      destruct cs as [q|].
      * rewrite bool_decide_eq_true_2 by (apply (Hl1 tr tc Hon Hc0); eauto).
        rewrite holds_pawn_some, Ecs. reflexivity.
      * destruct (bool_decide _); reflexivity.
    + intros r c Hon Hne. rewrite Hsq by (destruct Hon; lia).
      rewrite Hb1. apply Hrest; assumption.
Qed.

Lemma update_turn_eq g :
  update_turn g = Ok tt (mkGame (_board g) (_game_state g) (opponent (_player_turn g))
                                (king_white g) (king_black g)).
Proof. unfold update_turn, modify. destruct (_player_turn g); reflexivity. Qed.

Lemma update_win_inv g u g' :
  update_win g = Ok u g' ->
  _board g' = _board g /\ _player_turn g' = _player_turn g /\
  king_white g' = king_white g /\ king_black g' = king_black g.
Proof.
  unfold update_win, modify. intros H. inversion H; subst.
  destruct (king_white g) eqn:Ew, (king_black g) eqn:Ek; simpl;
    repeat split; congruence.
Qed.

(** [update_board] with [capture = True] returning [True]: the turn
    flips, the origin is emptied and the board is the one left by a
    successful explosion at the destination. *)
Lemma update_board_true_inv fr fc tr tc g g' :
  0 <= fr -> 0 <= fc -> 0 <= tr -> 0 <= tc ->
  update_board (fr, fc) (tr, tc) true g = Ok true g' ->
  _player_turn g' = opponent (_player_turn g) /\
  square (_board g') fr fc = Some None /\
  (on_board tr tc -> square (_board g') tr tc = Some None) /\
  (forall r c, on_board r c -> (r, c) <> (fr, fc) -> (r, c) <> (tr, tc) ->
     square (_board g') r c =
       if in_blast (tr, tc) r c && negb (holds_pawn (square (_board g) r c))
       then Some None else square (_board g) r c).
Proof.
  intros Hfr Hfc Htr Htc H. unfold update_board in H.
  rewrite (bind_ok _ _ _ _ _ (update_turn_eq g)) in H.
  step H e g2 Hexp. destruct e; [|apply ret_inv in H as [? _]; discriminate].
  apply explosion_true_inv in Hexp as (Hs2 & Ht2 & Hcen & Hnb); auto.
  cbn [negb _board _player_turn] in H, Ht2, Hnb.
  step H u g3 Hset. apply set_sq_inv in Hset as [b3 [-> Hb3]]; auto.
  cbn [fst snd] in Hb3.
  step H u' g4 Hwin. apply ret_inv in H as [_ ->].
  apply update_win_inv in Hwin as (Hb4 & Ht4 & _ & _).
  cbn [_board _player_turn set_board] in Hb4, Ht4. rewrite Hb4.
  refine (conj _ (conj _ (conj _ _))).
  - congruence.
  - rewrite Hb3 by lia. rewrite !Z.eqb_refl. reflexivity.
  - intros Hon. rewrite Hb3 by lia.
    destruct ((tr =? fr) && (tc =? fc)); [reflexivity | apply Hcen; exact Hon].
  - intros r c Hon Hn1 Hn2. rewrite Hb3 by (destruct Hon; lia).
    rewrite pair_neq_eqb by exact Hn1. apply Hnb; assumption.
Qed.

(** With both [_king_status] entries [False] the explosion always vetoes:
    it returns [False] and the entries stay [False]. *)
Lemma explosion_marked tr tc g r g' :
  king_white g = false -> king_black g = false ->
  explosion (tr, tc) g = Ok r g' ->
  r = false /\ _game_state g' = _game_state g /\
  king_white g' = false /\ king_black g' = false.
Proof.
  intros Hw Hk H. unfold explosion in H.
  step H l g1 Hscan.
  apply explosion_scan_inv in Hscan as (_ & Hs1 & _ & Hw1 & Hk1 & _ & _).
  step H kw g2 Hkw. apply gets_inv in Hkw as [-> ->].
  step H kb g3 Hkb. apply gets_inv in Hkb as [-> ->].
  rewrite (Hw1 Hw), (Hk1 Hk) in H. cbn [negb andb] in H.
  apply ret_inv in H as [-> ->]. auto.
Qed.

Lemma update_board_true_marked f t g r g' :
  king_white g = false -> king_black g = false ->
  update_board f t true g = Ok r g' ->
  r = false /\ _game_state g' = _game_state g /\
  king_white g' = false /\ king_black g' = false.
Proof.
  intros Hw Hk H. unfold update_board in H.
  rewrite (bind_ok _ _ _ _ _ (update_turn_eq g)) in H.
  destruct t as [tr tc].
  step H e g2 Hexp. apply explosion_marked in Hexp as (-> & Hs2 & Hw2 & Hk2); auto.
  cbn [negb] in H. apply ret_inv in H as [-> ->]. auto.
Qed.

(** One [make_move] call from a state with both entries [False]: the
    marking and the unfinished state persist, and a move onto an occupied
    square returns [False]. *)
Lemma marked_step a b g r g' :
  both_kings_marked g -> make_move a b g = Ok r g' ->
  both_kings_marked g' /\
  (forall tr tc q, notation_to_board_pos b = (tr, tc) ->
     square (_board g) tr tc = Some (Some q) -> r = false).
Proof.
  intros (Hw & Hk & Hs) H.
  apply make_move_inv in H as [[-> [->|(fr & fc & p & p' & _ & Hfr & Hfc & _ & _ & Hset)]]
    |(fr & fc & tr & tc & p & g2 & Ea & Eb & Hfr & Hfc & Htr & Htc & Hne & Hun &
      Hsq & Hcol & Hwb & Hpath)].
  - split; [repeat split; assumption | reflexivity].
  - apply set_sq_inv in Hset as [b' [-> _]]; auto.
    split; [repeat split; assumption | reflexivity].
  - destruct (write_back_inv g g2 fr fc p) as (_ & Hother & Hgs & _ & Hkw & Hkb);
      auto; try lia.
    destruct Hpath as [[q0 [_ Hub]]|[Hto Hub]].
    + apply update_board_true_marked in Hub as (-> & Hs' & Hw' & Hk'); try congruence.
      split; [repeat split; congruence | reflexivity].
    + apply update_board_false_inv in Hub
        as (-> & _ & Hs' & Hw' & Hk' & _ & _ & _); try lia; auto.
      split; [repeat split; congruence|].
      intros tr' tc' q Eb' Hq. rewrite Eb in Eb'. injection Eb' as <- <-.
      rewrite Hother in Hto by (lia || congruence). congruence.
Qed.

(** ** Captures and the double-king veto *)

(** C4 (amended): after an accepted capture onto an occupied on-board
    square, the origin and the destination are both empty, whatever piece
    (a Pawn included) stood on the destination; every other on-board
    square of the destination's 3x3 neighbourhood loses its piece unless
    that piece is a Pawn; every square outside it is unchanged. *)
Theorem capture_explosion_effect a b g g' fr fc tr tc q :
  notation_to_board_pos a = (fr, fc) -> notation_to_board_pos b = (tr, tc) ->
  on_board tr tc -> square (_board g) tr tc = Some (Some q) ->
  make_move a b g = Ok true g' ->
  square (_board g') fr fc = Some None /\ square (_board g') tr tc = Some None /\
  (forall r c, on_board r c -> (r, c) <> (fr, fc) -> (r, c) <> (tr, tc) ->
     square (_board g') r c =
       if in_blast (tr, tc) r c && negb (holds_pawn (square (_board g) r c))
       then Some None else square (_board g) r c).
Proof.
  intros Ea Eb Hon Hq H.
  apply make_move_inv in H as [[Hf _]|(fr' & fc' & tr' & tc' & p & g2 & Ea' & Eb' & Hfr & Hfc &
    Htr & Htc & Hne & Hun & Hsq & Hcol & Hwb & Hpath)]; [discriminate|].
  rewrite Ea in Ea'. rewrite Eb in Eb'. injection Ea' as <- <-. injection Eb' as <- <-.
  destruct (write_back_inv g g2 fr fc p) as (_ & Hother & _ & _ & _ & _); auto; try lia.
  destruct Hpath as [[q' [_ Hub]]|[Hto _]].
  - apply update_board_true_inv in Hub as (_ & Hfrom & Hto & Hrest); try lia.
    refine (conj Hfrom (conj (Hto Hon) _)).
    intros r c Hrc Hn1 Hn2. rewrite Hrest by assumption.
    rewrite (Hother r c) by (destruct Hrc; lia || assumption). reflexivity.
  - rewrite Hother in Hto by (lia || congruence). congruence.
Qed.

(** C9: from a state in which both [_king_status] entries are [False]
    while the game is unfinished (what a vetoed double-king explosion
    leaves), every state reached by further [make_move] calls is still
    unfinished with both entries [False], and in each of them a move onto
    an occupied square returns [False]: no capture is accepted and nobody
    can win. *)
Theorem marked_state_never_won g0 g :
  both_kings_marked g0 -> reachable_from g0 g ->
  _game_state g = UNFINISHED /\ king_white g = false /\ king_black g = false /\
  (forall a b tr tc q r g', notation_to_board_pos b = (tr, tc) ->
     square (_board g) tr tc = Some (Some q) -> make_move a b g = Ok r g' -> r = false).
Proof.
  intros H0 Hreach.
  assert (both_kings_marked g) as (Hw & Hk & Hs).
  { induction Hreach as [|g1 a b r g2 _ IH Hm]; [exact H0|].
    apply marked_step in Hm as [Hm _]; auto. }
  refine (conj Hs (conj Hw (conj Hk _))).
  intros a b tr tc q r g' Eb Hq Hm.
  apply marked_step in Hm as [_ Hcap]; [|repeat split; assumption].
  exact (Hcap tr tc q Eb Hq).
Qed.

(** ** Concrete games *)

Open Scope string_scope.

(** C1 (fails): after 1. Nf3 a6, White's f2-f4 is rejected (the knight on
    f3 blocks it), yet the f2 pawn's [_is_first_turn] has gone from [True]
    to [False]: [Pawn.is_valid_move] assigns it before the path is
    checked. *)
Theorem rejected_move_mutates_pawn :
  play knight_then_a6 new_game = Ok [true; true] after_knight_then_a6 /\
  square (_board after_knight_then_a6) 6 5 = Some (Some (Pawn WHITE true)) /\
  exists g2, make_move "f2" "f4" after_knight_then_a6 = Ok false g2 /\
    square (_board g2) 6 5 = Some (Some (Pawn WHITE false)).
Proof.
  split; [vm_compute; reflexivity|]. split; [vm_compute; reflexivity|].
  exists (state_of (make_move "f2" "f4" after_knight_then_a6)).
  split; vm_compute; reflexivity.
Qed.

(** C2 (fails): with the kings on d4 and d6, White's queen takes the pawn
    on e5; the explosion would destroy both kings, so the move is rejected
    and the board is unchanged, but both [_king_status] entries have gone
    from [True] to [False] and the turn has passed to Black. *)
Theorem double_king_veto_clears_flags :
  play kings_meet new_game =
    Ok [true; true; true; true; true; true; true; true; true; true] after_kings_meet /\
  king_white after_kings_meet = true /\ king_black after_kings_meet = true /\
  _player_turn after_kings_meet = WHITE /\
  make_move "h5" "e5" after_kings_meet = Ok false vetoed /\
  _board vetoed = _board after_kings_meet /\
  king_white vetoed = false /\ king_black vetoed = false /\
  _player_turn vetoed = BLACK.
Proof. vm_compute. repeat split. Qed.

(** C3 (fails): after 1. e3 a6 the e3 pawn still has [_is_first_turn]
    [True] (a one-square advance does not clear it), and its two-square
    advance e3-e5 is accepted. *)
Theorem pawn_double_step_after_single :
  play e3_then_a6 new_game = Ok [true; true] after_e3_then_a6 /\
  square (_board after_e3_then_a6) 5 4 = Some (Some (Pawn WHITE true)) /\
  exists g2, make_move "e3" "e5" after_e3_then_a6 = Ok true g2 /\
    square (_board g2) 5 4 = Some None /\
    square (_board g2) 3 4 = Some (Some (Pawn WHITE false)).
Proof.
  split; [vm_compute; reflexivity|]. split; [vm_compute; reflexivity|].
  exists (state_of (make_move "e3" "e5" after_e3_then_a6)).
  vm_compute. repeat split.
Qed.

(** C4 (counterexample): after 1. e4 d5, the capture exd5 is accepted and
    removes both pawns: the black one it captured on d5 and the white one
    that captured. *)
Lemma capture_removes_pawns :
  play e4_d5 new_game = Ok [true; true] after_e4_d5 /\
  square (_board after_e4_d5) 3 3 = Some (Some (Pawn BLACK false)) /\
  square (_board after_e4_d5) 4 4 = Some (Some (Pawn WHITE false)) /\
  exists g2, make_move "e4" "d5" after_e4_d5 = Ok true g2 /\
    square (_board g2) 3 3 = Some None /\ square (_board g2) 4 4 = Some None.
Proof.
  split; [vm_compute; reflexivity|]. split; [vm_compute; reflexivity|].
  split; [vm_compute; reflexivity|].
  exists (state_of (make_move "e4" "d5" after_e4_d5)).
  vm_compute. repeat split.
Qed.

(** C5 (fails): a King's one-square move to the right along its row gets
    [distance = -1] ([sq_from[1] - sq_to[1]], no [abs]) and [piece_move]
    returns [None]; so after 1. e4 a6 2. Bc4 a5, Ke1-f1 onto the empty f1
    is rejected. *)
Theorem king_step_right_rejected :
  (forall r c col,
     move_direction (r, c) (r, c + 1) (King col) = Some STRAIGHT /\
     move_distance (r, c) (r, c + 1) STRAIGHT = -1 /\
     piece_move STRAIGHT (move_distance (r, c) (r, c + 1) STRAIGHT) (King col) =
       (PNone, King col)) /\
  play bishop_out new_game = Ok [true; true; true; true] after_bishop_out /\
  _player_turn after_bishop_out = WHITE /\
  square (_board after_bishop_out) 7 4 = Some (Some (King WHITE)) /\
  square (_board after_bishop_out) 7 5 = Some None /\
  make_move "e1" "f1" after_bishop_out = Ok false after_bishop_out.
Proof.
  split.
  - intros r c col.
    assert (c - (c + 1) = -1) as Hd by lia.
    unfold move_direction, move_distance, piece_move. cbn [fst snd direction_eqb andb].
    rewrite Z.eqb_refl, Z.sub_diag, Hd. cbn. split; [|split]; reflexivity.
  - vm_compute. repeat split.
Qed.

(** C6 (fails): "a0" passes [notation_to_board_pos]'s rank check
    ([int < 0 or int > 8]) and becomes row 8, and [make_move "a0" "a1"]
    on the starting position raises [IndexError] reading
    [self._board[8]]. *)
Theorem rank_zero_raises :
  notation_to_board_pos "a0" = (8, 0) /\
  exists g, make_move "a0" "a1" new_game = Raise IndexError g.
Proof.
  split; [vm_compute; reflexivity|].
  exists (state_of (make_move "a0" "a1" new_game)). vm_compute. reflexivity.
Qed.

(** ** Witnesses *)

Lemma capture_explosion_effect_witness :
  notation_to_board_pos "e4" = (4, 4) /\ notation_to_board_pos "d5" = (3, 3) /\
  square (_board after_e4_d5) 3 3 = Some (Some (Pawn BLACK false)) /\
  make_move "e4" "d5" after_e4_d5 = Ok true (state_of (make_move "e4" "d5" after_e4_d5)) /\
  (square (_board (state_of (make_move "e4" "d5" after_e4_d5))) 4 4 = Some None /\
   square (_board (state_of (make_move "e4" "d5" after_e4_d5))) 3 3 = Some None /\
   (forall r c, on_board r c -> (r, c) <> (4, 4) -> (r, c) <> (3, 3) ->
      square (_board (state_of (make_move "e4" "d5" after_e4_d5))) r c =
        if in_blast (3, 3) r c && negb (holds_pawn (square (_board after_e4_d5) r c))
        then Some None else square (_board after_e4_d5) r c)).
Proof.
  split; [vm_compute; reflexivity|]. split; [vm_compute; reflexivity|].
  split; [vm_compute; reflexivity|]. split; [vm_compute; reflexivity|].
  apply (capture_explosion_effect "e4" "d5" after_e4_d5
           (state_of (make_move "e4" "d5" after_e4_d5)) 4 4 3 3 (Pawn BLACK false)).
  - vm_compute. reflexivity.
  - vm_compute. reflexivity.
  - unfold on_board. lia.
  - vm_compute. reflexivity.
  - vm_compute. reflexivity.
Defined.

Lemma knight_legality_by_deltas_witness :
  notation_to_board_pos "g1" = (7, 6) /\ notation_to_board_pos "f3" = (5, 5) /\
  square (_board new_game) 7 6 = Some (Some (Knight WHITE)) /\
  square (_board new_game) 5 5 = Some None /\
  ((knight_is_valid_move (7, 6) (5, 5) = true <->
      (Z.abs (7 - 5) = 2 /\ Z.abs (6 - 5) = 1) \/ (Z.abs (7 - 5) = 1 /\ Z.abs (6 - 5) = 2)) /\
   exists g', make_move "g1" "f3" new_game = Ok (knight_is_valid_move (7, 6) (5, 5)) g').
Proof.
  split; [vm_compute; reflexivity|]. split; [vm_compute; reflexivity|].
  split; [vm_compute; reflexivity|]. split; [vm_compute; reflexivity|].
  apply (knight_legality_by_deltas "g1" "f3" new_game 7 6 5 5 WHITE).
  - vm_compute. reflexivity.
  - vm_compute. reflexivity.
  - unfold on_board. lia.
  - unfold on_board. lia.
  - discriminate.
  - reflexivity.
  - reflexivity.
  - vm_compute. reflexivity.
  - vm_compute. reflexivity.
Defined.

Lemma finished_game_rejects_all_witness :
  _game_state white_has_won = WHITE_WON /\
  make_move "e7" "e5" white_has_won = Ok false white_has_won.
Proof.
  split; [reflexivity|].
  apply finished_game_rejects_all. discriminate.
Defined.

Lemma marked_state_never_won_witness :
  both_kings_marked vetoed /\
  (_game_state vetoed = UNFINISHED /\ king_white vetoed = false /\ king_black vetoed = false /\
   (forall a b tr tc q r g', notation_to_board_pos b = (tr, tc) ->
      square (_board vetoed) tr tc = Some (Some q) -> make_move a b vetoed = Ok r g' ->
      r = false)).
Proof.
  assert (both_kings_marked vetoed) as Hm.
  { unfold both_kings_marked. vm_compute. repeat split. }
  split; [exact Hm|].
  apply (marked_state_never_won vetoed vetoed Hm). apply reach_refl.
Defined.

Lemma noncapture_move_frame_witness :
  notation_to_board_pos "e2" = (6, 4) /\ notation_to_board_pos "e4" = (4, 4) /\
  square (_board new_game) 4 4 = Some None /\
  make_move "e2" "e4" new_game = Ok true (state_of (make_move "e2" "e4" new_game)) /\
  (let g' := state_of (make_move "e2" "e4" new_game) in
   _player_turn g' = opponent (_player_turn new_game) /\
   _game_state g' = _game_state new_game /\
   king_white g' = king_white new_game /\ king_black g' = king_black new_game /\
   square (_board g') 6 4 = Some None /\
   (exists p p', square (_board new_game) 6 4 = Some (Some p) /\ same_piece p p' /\
                 square (_board g') 4 4 = Some (Some p')) /\
   (forall r c, on_board r c -> (r, c) <> (6, 4) -> (r, c) <> (4, 4) ->
      square (_board g') r c = square (_board new_game) r c)).
Proof.
  split; [vm_compute; reflexivity|]. split; [vm_compute; reflexivity|].
  split; [vm_compute; reflexivity|]. split; [vm_compute; reflexivity|].
  apply (noncapture_move_frame "e2" "e4" new_game (state_of (make_move "e2" "e4" new_game))
           6 4 4 4).
  - vm_compute. reflexivity.
  - vm_compute. reflexivity.
  - vm_compute. reflexivity.
  - vm_compute. reflexivity.
Defined.

Close Scope string_scope.

(** * Further properties *)

(** ** Board shape *)

Lemma py_index_elem {A} (l : list A) i x : py_index l i = Some x -> x ∈ l.
Proof.
  unfold py_index. destruct (i <? 0); [destruct (_ <? 0); [discriminate|]|];
    apply list_elem_of_lookup_2.
Qed.

Lemma py_assign_insert {A} (l : list A) i x l' :
  py_assign l i x = Some l' -> exists j, l' = <[j := x]> l.
Proof. unfold py_assign. destruct (_ || _); [discriminate|]. intros H. inversion H. eauto. Qed.

(** An assignment [self._board[r][c] = x] that returns keeps the board
    8x8, whatever the indices. *)
Lemma wf_set_sq r c x g u g' :
  wf_board (_board g) -> set_sq r c x g = Ok u g' -> wf_board (_board g').
Proof.
  intros [Hlen Hrows]. unfold set_sq.
  destruct (py_index (_board g) r) as [row|] eqn:Erow; [|discriminate].
  destruct (py_assign row c x) as [row'|] eqn:Erow'; [|discriminate].
  destruct (py_assign (_board g) r row') as [b'|] eqn:Eb; [|discriminate].
  intros H. inversion H; subst. simpl.
  apply py_index_elem in Erow.
  apply py_assign_insert in Erow' as [j ->]. apply py_assign_insert in Eb as [i ->].
  split; [rewrite length_insert; exact Hlen|].
  apply Forall_insert; [exact Hrows|]. rewrite length_insert.
  rewrite Forall_forall in Hrows. exact (Hrows _ Erow).
Qed.

Lemma keeps_ro {A} (m : M A) : read_only m -> keeps_wf m.
Proof. intros Hro g a g' Hwf Hm. rewrite (read_only_ok m g a g' Hro Hm). exact Hwf. Qed.

Lemma keeps_set_sq r c x : keeps_wf (set_sq r c x).
Proof. intros g a g' Hwf Hm. exact (wf_set_sq r c x g a g' Hwf Hm). Qed.

Lemma keeps_modify f : (forall g, _board (f g) = _board g) -> keeps_wf (modify f).
Proof. intros Hf g a g' Hwf Hm. inversion Hm; subst. rewrite Hf. exact Hwf. Qed.

Lemma keeps_bind {A B} (m : M A) (k : A -> M B) :
  keeps_wf m -> (forall a, keeps_wf (k a)) -> keeps_wf (bind m k).
Proof.
  intros Hm Hk g b g' Hwf H. apply bind_inv in H as (a & g1 & H1 & H2).
  exact (Hk a g1 b g' (Hm g a g1 Hwf H1) H2).
Qed.

Create HintDb kw.
#[local] Hint Resolve keeps_set_sq : kw.
#[local] Hint Extern 2 (keeps_wf _) => apply keeps_ro; solve [ro_cases] : kw.

Ltac kw_cases :=
  repeat match goal with
  | |- keeps_wf (bind _ _) => apply keeps_bind; [|intros ?]
  | |- keeps_wf (if ?b then _ else _) => destruct b
  | |- keeps_wf (match ?x with _ => _ end) => destruct x
  | |- keeps_wf (modify _) => apply keeps_modify; intros ?;
                              repeat match goal with |- context [match ?x with _ => _ end] =>
                                destruct x end; reflexivity
  | |- keeps_wf _ => solve [auto with kw]
  end.

Lemma keeps_valid_move f t p : keeps_wf (valid_move f t p).
Proof.
  unfold valid_move. destruct (move_direction f t p); [|kw_cases].
  destruct (piece_move _ _ p). kw_cases.
Qed.

Lemma keeps_explosion_scan cells el : keeps_wf (explosion_scan cells el).
Proof.
  revert el. induction cells as [|[r c] rest IH]; intros el; simpl; kw_cases.
Qed.
#[local] Hint Resolve keeps_explosion_scan : kw.

Lemma keeps_explode_items items : keeps_wf (explode_items items).
Proof. induction items as [|[r c] rest IH]; simpl; kw_cases. Qed.
#[local] Hint Resolve keeps_valid_move keeps_explode_items : kw.

Lemma keeps_update_win : keeps_wf update_win.
Proof.
  apply keeps_modify. intros g.
  destruct (king_white g), (king_black g); reflexivity.
Qed.
#[local] Hint Resolve keeps_update_win : kw.

Lemma keeps_update_board f t cap : keeps_wf (update_board f t cap).
Proof. unfold update_board, explosion, move_piece, update_turn. kw_cases. Qed.
#[local] Hint Resolve keeps_update_board : kw.

Lemma keeps_make_move a b : keeps_wf (make_move a b).
Proof. unfold make_move. kw_cases. Qed.

Lemma wf_initialize_board : wf_board initialize_board.
Proof. split; [reflexivity | repeat constructor]. Qed.

(** ** Computations that cannot raise on an 8x8 board *)









Lemma py_range_In a b k : In k (py_range a b) <-> a <= k < b.
Proof.
  unfold py_range. rewrite in_map_iff. split.
  - intros (n & <- & Hn). apply in_seq in Hn. lia.
  - intros Hk. exists (Z.to_nat (k - a)). split; [lia|]. apply in_seq. lia.
Qed.








(** Turning the boolean tests of the code into arithmetic facts. *)
Ltac zbool :=
  repeat match goal with
  | H : (_ && _) = true |- _ => apply andb_true_iff in H as [? ?]
  | H : (_ && _) = false |- _ => apply andb_false_iff in H as [?|?]
  | H : (_ || _) = true |- _ => apply orb_true_iff in H as [?|?]
  | H : (_ || _) = false |- _ => apply orb_false_iff in H as [? ?]
  | H : (_ =? _) = true |- _ => apply Z.eqb_eq in H
  | H : (_ =? _) = false |- _ => apply Z.eqb_neq in H
  | H : (_ >? _) = true |- _ => rewrite Z.gtb_ltb in H; apply Z.ltb_lt in H
  | H : (_ >? _) = false |- _ => rewrite Z.gtb_ltb in H; apply Z.ltb_ge in H
  | H : (_ <? _) = true |- _ => apply Z.ltb_lt in H
  | H : (_ <? _) = false |- _ => apply Z.ltb_ge in H
  | H : (_ <=? _) = true |- _ => apply Z.leb_le in H
  | H : (_ <=? _) = false |- _ => apply Z.leb_gt in H
  end.

Ltac geom_finish :=
  repeat split; intros;
  repeat match goal with H : _ \/ _ |- _ => destruct H end;
  try discriminate; try congruence; try (left; reflexivity); try (right; reflexivity); lia.

(** What [move_direction] tells about the two squares. *)
Lemma move_direction_geom fr fc tr tc p dir :
  move_direction (fr, fc) (tr, tc) p = Some dir ->
  ((dir = STRAIGHT \/ dir = W_FORWARD \/ dir = B_FORWARD) -> fr = tr \/ fc = tc) /\
  (dir = W_FORWARD -> 0 < fr - tr) /\ (dir = B_FORWARD -> fr - tr < 0) /\
  (dir = DIAGONAL -> Z.abs (fr - tr) = Z.abs (fc - tc)) /\
  (dir = W_DIAGONAL -> tr = fr - 1 /\ Z.abs (fc - tc) = 1) /\
  (dir = B_DIAGONAL -> tr = fr + 1 /\ Z.abs (fc - tc) = 1) /\
  (is_pawn p = false -> dir = STRAIGHT \/ dir = DIAGONAL).
Proof.
  unfold move_direction.
  repeat match goal with
  | |- context [if ?b then _ else _] => let E := fresh "E" in destruct b eqn:E
  end; intros H; inversion H; subst; zbool; geom_finish.
Qed.

Lemma pawn_pc_dir c f dir n f' :
  pawn_is_valid_move c f dir n = (PPawnCapture, f') -> dir = W_DIAGONAL \/ dir = B_DIAGONAL.
Proof.
  unfold pawn_is_valid_move.
  destruct dir, c; cbn [direction_eqb color_eqb andb negb orb];
    destruct (n =? 1), (n =? 2), f; simpl; intros H; inversion H; auto.
Qed.

Lemma piece_move_pc dir n p v p' :
  piece_move dir n p = (v, p') -> v = PPawnCapture ->
  is_pawn p = true /\ (dir = W_DIAGONAL \/ dir = B_DIAGONAL).
Proof.
  intros H ->. destruct p as [c|c|c|c|c|c f]; simpl in H;
    try (repeat match type of H with context [if ?b then _ else _] => destruct b end;
         discriminate).
  destruct (pawn_is_valid_move c f dir n) as [v0 f0] eqn:E. inversion H; subst.
  split; [reflexivity | eapply pawn_pc_dir; exact E].
Qed.










(** ** Game state and [_king_status] *)

Lemma set_sq_board r c x g u g' : set_sq r c x g = Ok u g' -> exists b', g' = set_board g b'.
Proof.
  unfold set_sq.
  destruct (py_index (_board g) r) as [row|]; [|discriminate].
  destruct (py_assign row c x) as [row'|]; [|discriminate].
  destruct (py_assign (_board g) r row') as [b'|]; [|discriminate].
  intros H. inversion H. eauto.
Qed.

Lemma explode_items_fields items g u g' :
  explode_items items g = Ok u g' ->
  _game_state g' = _game_state g /\ _player_turn g' = _player_turn g /\
  king_white g' = king_white g /\ king_black g' = king_black g.
Proof.
  revert g. induction items as [|[r c] rest IH]; intros g H; simpl in H.
  - apply ret_inv in H as [_ ->]. auto.
  - step H x g1 Hget. apply get_sq_inv in Hget as [-> _].
    destruct (sq_is_pawn x); [apply IH; exact H|].
    step H u1 g2 Hset. apply set_sq_board in Hset as [b' ->].
    apply IH in H. exact H.
Qed.

(** [explosion] keeps the game state, only ever clears [_king_status]
    entries, returns [False] exactly when both entries end up [False]. *)
Lemma explosion_flags t g e g' :
  explosion t g = Ok e g' ->
  _game_state g' = _game_state g /\
  (king_white g = false -> king_white g' = false) /\
  (king_black g = false -> king_black g' = false) /\
  (e = false -> king_white g' = false /\ king_black g' = false) /\
  (e = true -> king_white g' = true \/ king_black g' = true).
Proof.
  unfold explosion. intros H.
  step H l g1 Hscan.
  apply explosion_scan_inv in Hscan as (_ & Hs1 & _ & Hw1 & Hk1 & _ & _).
  step H kw g2 Hkw. apply gets_inv in Hkw as [-> ->].
  step H kb g3 Hkb. apply gets_inv in Hkb as [-> ->].
  destruct (negb (king_white g1) && negb (king_black g1)) eqn:Eboth.
  { apply ret_inv in H as [-> ->]. apply andb_true_iff in Eboth as [E1 E2].
    apply negb_true_iff in E1, E2. repeat split; auto; discriminate. }
  step H cs g4 Hcs. apply get_sq_inv in Hcs as [-> _].
  step H u g5 Hcap.
  assert (_game_state g5 = _game_state g1 /\ king_white g5 = king_white g1 /\
          king_black g5 = king_black g1) as (Hs5 & Hw5 & Hk5).
  { destruct (sq_is_pawn cs).
    - apply set_sq_board in Hcap as [b' ->]. auto.
    - apply ret_inv in Hcap as [_ ->]. auto. }
  step H u2 g6 Hitems. apply ret_inv in H as [-> ->].
  apply explode_items_fields in Hitems as (Hs6 & _ & Hw6 & Hk6).
  apply andb_false_iff in Eboth.
  repeat split; try congruence; intros; try discriminate.
  - rewrite Hw6, Hw5. auto.
  - rewrite Hk6, Hk5. auto.
  - rewrite Hw6, Hw5, Hk6, Hk5.
    destruct Eboth as [E|E]; apply negb_false_iff in E; auto.
Qed.

Lemma update_board_capture_flags f t g r g' :
  update_board f t true g = Ok r g' ->
  (r = false /\ _game_state g' = _game_state g /\
     king_white g' = false /\ king_black g' = false) \/
  (r = true /\ (king_white g = false -> king_white g' = false) /\
     (king_black g = false -> king_black g' = false) /\
     (king_white g' = true \/ king_black g' = true) /\
     _game_state g' = if negb (king_white g') then BLACK_WON
                      else if negb (king_black g') then WHITE_WON else _game_state g).
Proof.
  intros H. unfold update_board in H.
  rewrite (bind_ok _ _ _ _ _ (update_turn_eq g)) in H.
  step H e g2 Hexp. apply explosion_flags in Hexp as (Hs2 & Hw2 & Hk2 & Hf2 & Ht2).
  cbn [_game_state king_white king_black] in Hs2, Hw2, Hk2.
  destruct e; cbn [negb] in H.
  2:{ apply ret_inv in H as [-> ->]. left. destruct (Hf2 eq_refl). auto. }
  right. step H u g3 Hset. apply set_sq_board in Hset as [b3 ->].
  step H u' g4 Hwin. apply ret_inv in H as [-> ->].
  unfold update_win, modify in Hwin. inversion Hwin; subst. clear Hwin.
  unfold set_board. cbn [king_white king_black _game_state].
  destruct (Ht2 eq_refl) as [Ew|Ek];
    destruct (king_white g2) eqn:Ew2, (king_black g2) eqn:Ek2; simpl;
    repeat split; auto; congruence.
Qed.

Lemma consistent_step a b g r g' :
  result_consistent g -> make_move a b g = Ok r g' -> result_consistent g'.
Proof.
  intros Hc H.
  apply make_move_inv in H as [[-> [->|(fr & fc & p & p' & _ & _ & _ & _ & _ & Hset)]]
    |(fr & fc & tr & tc & p & g2 & Ea & Eb & Hfr & Hfc & Htr & Htc & Hne & Hun &
      Hsq & Hcol & Hwb & Hpath)].
  - exact Hc.
  - apply set_sq_board in Hset as [b' ->]. exact Hc.
  - destruct (write_back_inv g g2 fr fc p) as (_ & _ & Hgs & _ & Hkw & Hkb); auto; try lia.
    assert (king_white g = king_black g) as Heq.
    { destruct Hc as [[_ E]|[[E _]|[E _]]]; [exact E | congruence | congruence]. }
    unfold result_consistent.
    destruct Hpath as [[q [_ Hub]]|[_ Hub]].
    + apply update_board_capture_flags in Hub
        as [(-> & Hs & Hw & Hk)|(-> & Hw & Hk & Hone & Hs)].
      * left. split; congruence.
      * rewrite Hs, Hgs, Hun.
        destruct (king_white g) eqn:Ew.
        -- destruct (king_white g'), (king_black g'); simpl; auto.
           destruct Hone; discriminate.
        -- rewrite Hkw in Hw. rewrite Hkb, <- Heq in Hk.
           rewrite (Hw eq_refl), (Hk eq_refl) in Hone. destruct Hone; discriminate.
    + apply update_board_false_inv in Hub as (_ & _ & Hs & Hw & Hk & _); try lia; auto.
      left. split; congruence.
Qed.

Lemma play_reachable moves g0 g rs g' :
  reachable_from g0 g -> play moves g = Ok rs g' -> reachable_from g0 g'.
Proof.
  revert g rs. induction moves as [|[a b] rest IH]; intros g rs Hr H; simpl in H.
  - apply ret_inv in H as [_ ->]. exact Hr.
  - step H r g1 Hm. step H rs' g2 Hp. apply ret_inv in H as [_ ->].
    apply (IH g1 rs'); [eapply reach_step; eauto | exact Hp].
Qed.

(** ** Extra properties: board shape, exceptions, result *)

(** X1: every game reached from the starting position through
    [make_move] calls that return has an 8x8 board. *)
Theorem reachable_board_8x8 g : reachable_from new_game g -> wf_board (_board g).
Proof.
  intros Hr. induction Hr as [|g1 a b r g2 _ IH Hm].
  - exact wf_initialize_board.
  - exact (keeps_make_move a b g1 r g2 IH Hm).
Qed.


(** X3: on an unfinished game with an 8x8 board, an origin read as row 8
    (a rank digit 0) with a destination that parses makes [make_move]
    raise [IndexError] reading [self._board[8]], with the game untouched. *)
Theorem rank_zero_origin_raises a b g :
  wf_board (_board g) -> _game_state g = UNFINISHED ->
  fst (notation_to_board_pos a) = 8 -> notation_to_board_pos b <> (-1, -1) ->
  make_move a b g = Raise IndexError g.
Proof.
  intros [Hlen _] Hun Ha Hb. unfold make_move, bind, gets. rewrite Hun.
  cbn [game_state_eqb negb]. cbv zeta.
  destruct (notation_to_board_pos a) as [fr fc] eqn:Ea. simpl in Ha. subst fr.
  rewrite (pos_eqb_neq (8, fc) (-1, -1)) by congruence.
  rewrite (pos_eqb_neq _ _ Hb). cbn [orb].
  unfold get_sq, square. cbn [fst]. rewrite py_index_nonneg by lia.
  rewrite (lookup_ge_None_2 (_board g) (Z.to_nat 8)) by (rewrite Hlen; reflexivity).
  reflexivity.
Qed.

(** X4: in every game reached from the starting position, the game state
    and the two [_king_status] entries agree: "UNFINISHED" with both
    entries equal, "BLACK_WON" with only White's entry [False],
    "WHITE_WON" with only Black's entry [False]. *)
Theorem reachable_result_consistent g :
  reachable_from new_game g -> result_consistent g.
Proof.
  intros Hr. induction Hr as [|g1 a b r g2 _ IH Hm].
  - left. split; reflexivity.
  - exact (consistent_step a b g1 r g2 IH Hm).
Qed.

Open Scope string_scope.

Lemma reachable_board_8x8_witness :
  reachable_from new_game vetoed /\ wf_board (_board vetoed).
Proof.
  assert (reachable_from new_game vetoed) as Hr.
  { apply (reach_step new_game after_kings_meet "h5" "e5" false vetoed).
    - apply (play_reachable kings_meet new_game new_game
               [true; true; true; true; true; true; true; true; true; true] after_kings_meet).
      + apply reach_refl.
      + vm_compute. reflexivity.
    - vm_compute. reflexivity. }
  split; [exact Hr | apply (reachable_board_8x8 vetoed Hr)].
Defined.


Lemma rank_zero_origin_raises_witness :
  wf_board (_board after_e4_d5) /\ _game_state after_e4_d5 = UNFINISHED /\
  fst (notation_to_board_pos "e0") = 8 /\ notation_to_board_pos "e4" <> (-1, -1) /\
  make_move "e0" "e4" after_e4_d5 = Raise IndexError after_e4_d5.
Proof.
  assert (wf_board (_board after_e4_d5)) as Hwf.
  { vm_compute. split; [reflexivity | repeat constructor]. }
  assert (_game_state after_e4_d5 = UNFINISHED) as Hun by (vm_compute; reflexivity).
  assert (fst (notation_to_board_pos "e0") = 8) as Ha by (vm_compute; reflexivity).
  assert (notation_to_board_pos "e4" <> (-1, -1)) as Hb by (vm_compute; discriminate).
  split; [exact Hwf|]. split; [exact Hun|]. split; [exact Ha|]. split; [exact Hb|].
  exact (rank_zero_origin_raises "e0" "e4" after_e4_d5 Hwf Hun Ha Hb).
Defined.

Lemma reachable_result_consistent_witness :
  reachable_from new_game after_knight_raid /\ _game_state after_knight_raid = WHITE_WON /\
  result_consistent after_knight_raid.
Proof.
  assert (reachable_from new_game after_knight_raid) as Hr.
  { apply (play_reachable knight_raid new_game new_game [true; true; true; true; true]
             after_knight_raid).
    - apply reach_refl.
    - vm_compute. reflexivity. }
  split; [exact Hr|]. split; [vm_compute; reflexivity|].
  exact (reachable_result_consistent after_knight_raid Hr).
Defined.

Close Scope string_scope.

(** ** Accepted moves *)

Lemma pawn_capture_true_color f t c g g' :
  pawn_capture f t c g = Ok true g' ->
  g' = g /\ exists q, square (_board g) (fst t) (snd t) = Some (Some q) /\
                      color_eqb c (get_color q) = false.
Proof.
  intros H. split; [exact (read_only_ok _ _ _ _ (read_only_pawn_capture f t c) H)|].
  destruct f as [fr fc], t as [tr tc]. unfold pawn_capture in H.
  step H cap g1 Hm.
  assert (g1 = g) as ->.
  { eapply read_only_ok; [|exact Hm]. ro_cases. }
  destruct cap; [|apply ret_inv in H as [? _]; discriminate].
  step H ts g2 Hm2. apply get_sq_inv in Hm2 as [-> Hsq].
  destruct ts as [q|]; [|discriminate].
  apply ret_inv in H as [Hc _]. exists q. split; [exact Hsq|].
  destruct (color_eqb c (get_color q)); [discriminate | reflexivity].
Qed.

Lemma is_capture_true_inv f t p g g' :
  is_capture f t p g = Ok CTrue g' ->
  g' = g /\ exists q, square (_board g) (fst t) (snd t) = Some (Some q) /\
    color_eqb (get_color p) (get_color q) = false /\ is_king p = false.
Proof.
  unfold is_capture. intros H. step H ts g1 Hm. apply get_sq_inv in Hm as [-> Hsq].
  destruct ts as [q|]; [|apply ret_inv in H as [? _]; discriminate].
  destruct (color_eqb (get_color p) (get_color q)) eqn:Ec;
    [apply ret_inv in H as [? _]; discriminate|].
  destruct (is_king p) eqn:Ek; apply ret_inv in H as [Hv ->]; [discriminate|].
  split; [reflexivity|]. eauto.
Qed.

(** [valid_move] returns "PAWN_CAPTURE" only for a Pawn, after reading an
    opponent's piece on the destination. *)
Lemma valid_move_pc f t p g g' :
  valid_move f t p g = Ok PPawnCapture g' ->
  is_pawn p = true /\ exists q, square (_board g') (fst t) (snd t) = Some (Some q) /\
    color_eqb (get_color p) (get_color q) = false.
Proof.
  unfold valid_move.
  destruct (move_direction f t p) as [dir|];
    [|intros H; apply ret_inv in H as [? _]; discriminate].
  destruct (piece_move dir (move_distance f t dir) p) as [pmv p'] eqn:Epm.
  intros H. step H u g1 Hset.
  destruct pmv; cbv beta iota in H; cbn [truthy] in H.
  - apply ret_inv in H as [? _]. discriminate.
  - crush H; try discriminate;
      try (match goal with a : bool |- _ => destruct a; discriminate end).
    exfalso. eapply clear_path_pawn_not_pc; [eassumption | reflexivity].
  - apply ret_inv in H as [? _]. discriminate.
  - split; [exact (proj1 (piece_move_pc _ _ _ _ _ Epm eq_refl))|].
    step H cap g2 Hpc. destruct cap; [|apply ret_inv in H as [? _]; discriminate].
    apply ret_inv in H as [_ ->].
    apply pawn_capture_true_color in Hpc as [-> Hq]. exact Hq.
Qed.

(** The paths through [make_move] that return [True].  [g2] is the state
    after the validity checks. *)
Lemma make_move_accept_inv a b g g' :
  make_move a b g = Ok true g' ->
  exists fr fc tr tc p v g2,
    notation_to_board_pos a = (fr, fc) /\ notation_to_board_pos b = (tr, tc) /\
    0 <= fr <= 8 /\ 0 <= fc <= 7 /\ 0 <= tr <= 8 /\ 0 <= tc <= 7 /\
    (fr, fc) <> (tr, tc) /\ _game_state g = UNFINISHED /\
    square (_board g) fr fc = Some (Some p) /\ get_color p = _player_turn g /\
    ((is_knight p = true /\ knight_is_valid_move (fr, fc) (tr, tc) = true /\ v = PTrue /\ g2 = g) \/
     (is_knight p = false /\ valid_move (fr, fc) (tr, tc) p g = Ok v g2)) /\
    ((v = PPawnCapture /\ is_pawn p = true /\
      (exists q, square (_board g2) tr tc = Some (Some q) /\
                 color_eqb (get_color p) (get_color q) = false) /\
      update_board (fr, fc) (tr, tc) true g2 = Ok true g') \/
     (truthy v = true /\ v <> PPawnCapture /\ square (_board g2) tr tc = Some None /\
      update_board (fr, fc) (tr, tc) false g2 = Ok true g') \/
     (truthy v = true /\ v <> PPawnCapture /\
      (exists q, square (_board g2) tr tc = Some (Some q) /\
                 color_eqb (get_color p) (get_color q) = false /\ is_king p = false) /\
      update_board (fr, fc) (tr, tc) true g2 = Ok true g')).
Proof.
  intros H. unfold make_move in H.
  step H st g1 Hm. apply gets_inv in Hm as [-> ->].
  destruct (negb (game_state_eqb (_game_state g) UNFINISHED)) eqn:Egs.
  { apply ret_inv in H as [? _]. discriminate. }
  assert (_game_state g = UNFINISHED) as Hun.
  { destruct (_game_state g); simpl in Egs; congruence. }
  cbv zeta in H.
  destruct (notation_to_board_pos a) as [fr fc] eqn:Ea.
  destruct (notation_to_board_pos b) as [tr tc] eqn:Eb.
  destruct (pos_eqb (fr, fc) (-1, -1) || pos_eqb (tr, tc) (-1, -1)) eqn:Einv.
  { apply ret_inv in H as [? _]. discriminate. }
  apply orb_false_iff in Einv as [Ein1 Ein2].
  apply pos_eqb_false in Ein1, Ein2.
  assert (0 <= fr <= 8 /\ 0 <= fc <= 7) as [Hfr Hfc].
  { destruct (parse_range _ _ _ Ea) as [[-> ->]|]; [congruence | auto]. }
  assert (0 <= tr <= 8 /\ 0 <= tc <= 7) as [Htr Htc].
  { destruct (parse_range _ _ _ Eb) as [[-> ->]|]; [congruence | auto]. }
  step H x g2 Hm. apply get_sq_inv in Hm as [-> Hsq]. simpl in Hsq.
  destruct x as [p|]; [|apply ret_inv in H as [? _]; discriminate].
  destruct (pos_eqb (fr, fc) (tr, tc)) eqn:Esame.
  { apply ret_inv in H as [? _]. discriminate. }
  apply pos_eqb_false in Esame.
  step H turn g3 Hm. apply gets_inv in Hm as [-> ->].
  destruct (negb (color_eqb (get_color p) (_player_turn g))) eqn:Ecol.
  { apply ret_inv in H as [? _]. discriminate. }
  assert (get_color p = _player_turn g) as Hcol.
  { destruct (get_color p), (_player_turn g); simpl in Ecol; congruence. }
  step H valid g4 Hm.
  exists fr, fc, tr, tc, p, valid, g4.
  refine (conj eq_refl (conj eq_refl (conj Hfr (conj Hfc (conj Htr (conj Htc
    (conj Esame (conj Hun (conj Hsq (conj Hcol _)))))))))).
  assert ((is_knight p = true /\ knight_is_valid_move (fr, fc) (tr, tc) = true /\
           valid = PTrue /\ g4 = g) \/
          (is_knight p = false /\ valid_move (fr, fc) (tr, tc) p g = Ok valid g4) \/
          (is_knight p = true /\ valid = PFalse)) as Hval.
  { destruct (is_knight p); [|auto].
    apply ret_inv in Hm as [-> ->].
    destruct (knight_is_valid_move (fr, fc) (tr, tc)); auto. }
  destruct Hval as [Hk|[Hv|[_ ->]]];
    [| |apply ret_inv in H as [? _]; discriminate].
  all: split; [auto|].
  all: destruct valid; cbv beta iota in H; cbn [truthy] in H;
    try (apply ret_inv in H as [? _]; discriminate).
  all: try (destruct Hk as (_ & _ & ? & _); discriminate).
  - step H cap g5 Hic.
    destruct cap.
    + apply is_capture_inv in Hic as [-> [Hcf _]].
      right. left. repeat split; auto; discriminate.
    + apply is_capture_true_inv in Hic as [-> Hq].
      right. right. repeat split; auto; discriminate.
    + apply ret_inv in H as [? _]. discriminate.
    + apply ret_inv in H as [? _]. discriminate.
  - step H cap g5 Hic.
    destruct cap.
    + apply is_capture_inv in Hic as [-> [Hcf _]].
      right. left. repeat split; auto; discriminate.
    + apply is_capture_true_inv in Hic as [-> Hq].
      right. right. repeat split; auto; discriminate.
    + apply ret_inv in H as [? _]. discriminate.
    + apply ret_inv in H as [? _]. discriminate.
  - destruct (valid_move_pc _ _ _ _ _ (proj2 Hv)) as [Hp Hq].
    left. repeat split; auto.
Qed.

(** The validity checks change no square other than the origin. *)
Lemma validation_frame fr fc tr tc p v g g2 :
  0 <= fr -> 0 <= fc -> square (_board g) fr fc = Some (Some p) ->
  ((is_knight p = true /\ knight_is_valid_move (fr, fc) (tr, tc) = true /\ v = PTrue /\ g2 = g) \/
   (is_knight p = false /\ valid_move (fr, fc) (tr, tc) p g = Ok v g2)) ->
  (forall r c, 0 <= r -> 0 <= c -> (r, c) <> (fr, fc) ->
     square (_board g2) r c = square (_board g) r c) /\
  _game_state g2 = _game_state g /\ _player_turn g2 = _player_turn g /\
  king_white g2 = king_white g /\ king_black g2 = king_black g.
Proof.
  intros Hfr Hfc Hsq Hval.
  assert (g2 = g \/ exists p', same_piece p p' /\ set_sq fr fc (Some p') g = Ok tt g2) as Hwb.
  { destruct Hval as [(_ & _ & _ & ->)|[_ Hv]]; [auto|].
    apply valid_move_inv in Hv as [Hwb _]; auto. }
  destruct (write_back_inv g g2 fr fc p Hfr Hfc Hsq Hwb) as (_ & Hother & Hs & Ht & Hw & Hk).
  auto.
Qed.

Lemma color_eqb_false c c' : color_eqb c c' = false -> c' <> c.
Proof. destruct c, c'; simpl; congruence. Qed.

(** X5: an accepted move moves a piece of the player to move; its
    destination held nothing or a piece of the other colour, and never
    anything when the moving piece is a King. *)
Theorem accepted_move_target a b g g' fr fc tr tc :
  notation_to_board_pos a = (fr, fc) -> notation_to_board_pos b = (tr, tc) ->
  make_move a b g = Ok true g' ->
  exists p, square (_board g) fr fc = Some (Some p) /\ get_color p = _player_turn g /\
    (square (_board g) tr tc = Some None \/
     exists q, square (_board g) tr tc = Some (Some q) /\ get_color q <> get_color p /\
               is_king p = false).
Proof.
  intros Ea Eb H.
  apply make_move_accept_inv in H as (fr' & fc' & tr' & tc' & p & v & g2 & Ea' & Eb' &
    Hfr & Hfc & Htr & Htc & Hne & Hun & Hsq & Hcol & Hval & Hpath).
  rewrite Ea in Ea'. rewrite Eb in Eb'. injection Ea' as <- <-. injection Eb' as <- <-.
  destruct (validation_frame fr fc tr tc p v g g2) as [Hother _]; auto; try lia.
  rewrite Hother in Hpath by (lia || congruence).
  exists p. split; [exact Hsq|]. split; [exact Hcol|].
  destruct Hpath as [(_ & Hp & [q [Hq Hc]] & _)|[(_ & _ & Hto & _)|(_ & _ & [q (Hq & Hc & Hk)] & _)]].
  - right. exists q. split; [exact Hq|]. split; [apply color_eqb_false; exact Hc|].
    destruct p; simpl in Hp |- *; congruence.
  - left. exact Hto.
  - right. exists q. split; [exact Hq|]. split; [apply color_eqb_false; exact Hc | exact Hk].
Qed.

(** ** Rejected moves and the turn *)

Lemma explosion_false t g g' :
  explosion t g = Ok false g' ->
  _board g' = _board g /\ _game_state g' = _game_state g /\
  _player_turn g' = _player_turn g /\ king_white g' = false /\ king_black g' = false.
Proof.
  unfold explosion. intros H.
  step H l g1 Hscan.
  apply explosion_scan_inv in Hscan as (Hb1 & Hs1 & Ht1 & _ & _ & _ & _).
  step H kw g2 Hkw. apply gets_inv in Hkw as [-> ->].
  step H kb g3 Hkb. apply gets_inv in Hkb as [-> ->].
  destruct (negb (king_white g1) && negb (king_black g1)) eqn:Eboth.
  - apply ret_inv in H as [_ ->]. apply andb_true_iff in Eboth as [E1 E2].
    apply negb_true_iff in E1, E2. auto.
  - step H cs g4 Hcs. step H u g5 Hcap. step H u2 g6 Hitems.
    apply ret_inv in H as [? _]. discriminate.
Qed.



(** [update_board] with [capture = True] returning [False]: the vetoed
    explosion. *)
Lemma update_board_veto f t g g' :
  update_board f t true g = Ok false g' ->
  _board g' = _board g /\ _game_state g' = _game_state g /\
  king_white g' = false /\ king_black g' = false.
Proof.
  intros H. unfold update_board in H.
  rewrite (bind_ok _ _ _ _ _ (update_turn_eq g)) in H.
  step H e g2 Hexp. destruct e; cbn [negb] in H.
  - step H u g3 Hset. step H u' g4 Hwin. apply ret_inv in H as [? _]. discriminate.
  - apply ret_inv in H as [_ ->].
    apply explosion_false in Hexp as (Hb & Hs & _ & Hw & Hk). auto.
Qed.

Lemma same_piece_square o o' p p' :
  same_piece p p' -> o = Some (Some p) -> o' = Some (Some p') ->
  o' = o \/ exists col f f', o = Some (Some (Pawn col f)) /\ o' = Some (Some (Pawn col f')).
Proof.
  intros [->|(col & f & f' & -> & ->)] -> ->; [left; reflexivity | right; eauto].
Qed.


(** X7: a rejected move changes neither the game state nor any square,
    except that the piece on the origin square may be the same Pawn with
    its first-move flag changed; the [_king_status] entries are either
    unchanged or both [False] (a vetoed double-king capture). *)
Theorem rejected_move_frame a b g g' :
  make_move a b g = Ok false g' ->
  _game_state g' = _game_state g /\
  (forall r c, on_board r c ->
     square (_board g') r c = square (_board g) r c \/
     (notation_to_board_pos a = (r, c) /\
      exists col f f', square (_board g) r c = Some (Some (Pawn col f)) /\
                       square (_board g') r c = Some (Some (Pawn col f')))) /\
  ((king_white g' = king_white g /\ king_black g' = king_black g) \/
   (king_white g' = false /\ king_black g' = false)).
Proof.
  intros H.
  apply make_move_inv in H as [[_ [->|(fr & fc & p & p' & Ea & Hfr & Hfc & Hsq & Hs & Hset)]]
    |(fr & fc & tr & tc & p & g2 & Ea & Eb & Hfr & Hfc & Htr & Htc & Hne & Hun &
      Hsq & Hcol & Hwb & Hpath)].
  - split; [reflexivity|]. split; [auto|]. left. auto.
  - pose proof Hset as Hset'.
    apply set_sq_inv in Hset as [b' [-> Hb]]; auto.
    split; [reflexivity|]. split; [|left; auto].
    intros r c [Hr Hc]. cbn [_board set_board]. rewrite Hb by lia.
    destruct (Z.eqb_spec r fr) as [->|Hne1]; [destruct (Z.eqb_spec c fc) as [->|Hne2]|];
      cbn [andb]; [|left; reflexivity|left; reflexivity].
    destruct (same_piece_square _ (Some (Some p')) p p' Hs Hsq eq_refl) as [E|E];
      [left; exact E | right; split; [exact Ea | exact E]].
  - destruct (write_back_inv g g2 fr fc p) as ([p' [Hs Hp']] & Hother & Hgs & _ & _ & _);
      auto; try lia.
    destruct Hpath as [[q [_ Hub]]|[_ Hub]].
    + apply update_board_veto in Hub as (Hb & Hs' & Hw & Hk).
      split; [congruence|]. split; [|right; auto].
      intros r c [Hr Hc]. rewrite Hb.
      destruct (decide ((r, c) = (fr, fc))) as [Heq|Hn].
      * injection Heq as -> ->.
        destruct (same_piece_square _ _ p p' Hs Hsq Hp') as [E|E];
          [left; exact E | right; split; [exact Ea | exact E]].
      * left. apply Hother; (lia || exact Hn).
    + apply update_board_false_inv in Hub as (? & _); try lia; auto; discriminate.
Qed.

(** ** Movement rules of accepted moves *)

Lemma path_clear_true cells g g' :
  path_clear cells g = Ok true g' ->
  forall r c, In (r, c) cells -> square (_board g) r c = Some None.
Proof.
  revert g. induction cells as [|[r0 c0] rest IH]; intros g H r c Hin; [destruct Hin|].
  simpl in H. step H x g1 Hget. apply get_sq_inv in Hget as [-> Hx].
  destruct x as [q|]; [apply ret_inv in H as [? _]; discriminate|].
  destruct Hin as [Heq|Hin]; [injection Heq as <- <-; exact Hx | exact (IH g H r c Hin)].
Qed.

Lemma in_map_range {B} (f : Z -> B) a b k x : a <= k < b -> x = f k -> In x (map f (py_range a b)).
Proof. intros Hk ->. apply in_map. apply py_range_In. exact Hk. Qed.

Ltac sgn_simpl H :=
  repeat match type of H with
  | context [Z.sgn ?x] =>
      first [ rewrite (Z.sgn_pos x) in H by lia | rewrite (Z.sgn_neg x) in H by lia
            | rewrite (Z.sgn_null x) in H by lia ]
  end.

Ltac in_cells r c k :=
  first [ apply (in_map_range _ _ _ r); [lia | cbv beta; f_equal; lia]
        | apply (in_map_range _ _ _ c); [lia | cbv beta; f_equal; lia]
        | apply (in_map_range _ _ _ k); [lia | cbv beta; f_equal; lia] ].

Lemma clear_path_straight_true fr fc tr tc g g' :
  clear_path_straight (fr, fc) (tr, tc) g = Ok true g' -> (fr = tr \/ fc = tc) ->
  forall r c, strictly_between (fr, fc) (tr, tc) r c -> square (_board g) r c = Some None.
Proof.
  intros H Hline r c (k & Hk & Er & Ec). cbn [fst snd] in Hk, Er, Ec.
  unfold clear_path_straight in H. rewrite !Z.gtb_ltb in H.
  destruct (Z.ltb_spec 0 (fr - tr));
    [|destruct (Z.ltb_spec (fr - tr) 0);
      [|destruct (Z.ltb_spec 0 (fc - tc));
        [|destruct (Z.ltb_spec (fc - tc) 0); [|apply ret_inv in H as [? _]; discriminate]]]];
    apply (path_clear_true _ _ _ H); sgn_simpl Er; sgn_simpl Ec; in_cells r c k.
Qed.

Lemma clear_path_diagonal_true fr fc tr tc g g' :
  clear_path_diagonal (fr, fc) (tr, tc) g = Ok true g' -> Z.abs (fr - tr) = Z.abs (fc - tc) ->
  forall r c, strictly_between (fr, fc) (tr, tc) r c -> square (_board g) r c = Some None.
Proof.
  intros H Hd r c (k & Hk & Er & Ec). cbn [fst snd] in Hk, Er, Ec.
  unfold clear_path_diagonal in H. rewrite !Z.gtb_ltb in H.
  destruct (Z.ltb_spec 0 (fr - tr)), (Z.ltb_spec 0 (fc - tc)),
    (Z.ltb_spec (fr - tr) 0), (Z.ltb_spec (fc - tc) 0); cbn [andb] in H;
    try (apply ret_inv in H as [? _]; discriminate); try lia;
    apply (path_clear_true _ _ _ H); sgn_simpl Er; sgn_simpl Ec; in_cells r c k.
Qed.

Lemma clear_path_pawn_true fr fc tr tc g v g' :
  clear_path_pawn (fr, fc) (tr, tc) g = Ok v g' -> truthy v = true ->
  (0 < fr - tr -> forall r, tr <= r < fr -> square (_board g) r fc = Some None) /\
  (fr - tr < 0 -> forall r, fr < r <= tr -> square (_board g) r fc = Some None).
Proof.
  intros H Hv. unfold clear_path_pawn in H. cbn [fst] in H. rewrite !Z.gtb_ltb in H.
  destruct (Z.ltb_spec 0 (fr - tr)).
  - step H b1 g1 Hp. apply ret_inv in H as [-> _].
    destruct b1; [|discriminate].
    split; [|lia]. intros _ r Hr. apply (path_clear_true _ _ _ Hp). in_cells r fc r.
  - destruct (Z.ltb_spec (fr - tr) 0).
    + step H b1 g1 Hp. apply ret_inv in H as [-> _].
      destruct b1; [|discriminate].
      split; [lia|]. intros _ r Hr. apply (path_clear_true _ _ _ Hp). in_cells r fc r.
    + apply ret_inv in H as [-> _]. discriminate.
Qed.

(** On a row, column or diagonal, the squares strictly between two
    squares are neither of them, and lie between them. *)
Lemma between_props fr fc tr tc r c :
  (fr = tr \/ fc = tc \/ Z.abs (fr - tr) = Z.abs (fc - tc)) ->
  strictly_between (fr, fc) (tr, tc) r c ->
  Z.min fr tr <= r <= Z.max fr tr /\ Z.min fc tc <= c <= Z.max fc tc /\
  (r, c) <> (fr, fc) /\ (r, c) <> (tr, tc).
Proof.
  intros Hline (k & Hk & Er & Ec). cbn [fst snd] in Hk, Er, Ec.
  destruct (Z.lt_trichotomy (tr - fr) 0) as [Hr|[Hr|Hr]];
  destruct (Z.lt_trichotomy (tc - fc) 0) as [Hc|[Hc|Hc]];
    sgn_simpl Er; sgn_simpl Ec; subst r c;
    (split; [lia|]); (split; [lia|]); split; intros Heq; injection Heq; lia.
Qed.

(** The paths through [valid_move] that return a truthy value other
    than [PAWN_CAPTURE]: the piece accepts the move, the origin is
    written back, and a path check passes. *)
Lemma valid_move_truthy fr fc tr tc p g v g2 :
  valid_move (fr, fc) (tr, tc) p g = Ok v g2 -> truthy v = true -> v <> PPawnCapture ->
  exists dir p' g1,
    move_direction (fr, fc) (tr, tc) p = Some dir /\
    piece_move dir (move_distance (fr, fc) (tr, tc) dir) p = (PTrue, p') /\
    set_sq fr fc (Some p') g = Ok tt g1 /\
    ((clear_path_straight (fr, fc) (tr, tc) g1 = Ok true g2 /\
      (((is_queen p || is_king p) = true /\ dir = STRAIGHT) \/ is_rook p = true)) \/
     (clear_path_diagonal (fr, fc) (tr, tc) g1 = Ok true g2 /\
      (((is_queen p || is_king p) = true /\ dir = DIAGONAL) \/ is_bishop p = true)) \/
     (is_pawn p = true /\ clear_path_pawn (fr, fc) (tr, tc) g1 = Ok v g2)).
Proof.
  intros H Hv Hpc. unfold valid_move in H.
  destruct (move_direction (fr, fc) (tr, tc) p) as [dir|] eqn:Edir;
    [|apply ret_inv in H as [-> _]; discriminate].
  destruct (piece_move dir (move_distance (fr, fc) (tr, tc) dir) p) as [pmv p'] eqn:Epm.
  step H u g1 Hset. destruct u. cbn [fst snd] in Hset.
  exists dir, p', g1.
  destruct pmv; cbn [truthy] in H;
    try (apply ret_inv in H as [-> _]; discriminate).
  2: { step H cap g3 Hcap. destruct cap; apply ret_inv in H as [-> _]; first [discriminate | congruence]. }
  split; [reflexivity|]. split; [exact Epm|]. split; [exact Hset|].
  destruct p, dir; cbn [is_queen is_king is_rook is_bishop is_pawn orb andb direction_eqb] in H |- *;
    try (apply ret_inv in H as [-> _]; discriminate);
    try (right; right; split; [reflexivity | exact H]);
    step H b g3 Hc; apply ret_inv in H as [-> ->]; destruct b; try discriminate;
    first [ left; split; [exact Hc | auto]
          | right; left; split; [exact Hc | auto] ].
Qed.

Lemma valid_move_pc_dir f t p g g' :
  valid_move f t p g = Ok PPawnCapture g' ->
  exists dir p', move_direction f t p = Some dir /\
    piece_move dir (move_distance f t dir) p = (PPawnCapture, p').
Proof.
  unfold valid_move.
  destruct (move_direction f t p) as [dir|];
    [|intros H; apply ret_inv in H as [? _]; discriminate].
  destruct (piece_move dir (move_distance f t dir) p) as [pmv p'] eqn:Epm.
  intros H. step H u g1 Hset.
  destruct pmv; cbv beta iota in H; cbn [truthy] in H.
  - apply ret_inv in H as [? _]. discriminate.
  - crush H; try discriminate;
      try (match goal with a : bool |- _ => destruct a; discriminate end).
    exfalso. eapply clear_path_pawn_not_pc; [eassumption | reflexivity].
  - apply ret_inv in H as [? _]. discriminate.
  - exists dir, p'. auto.
Qed.

Lemma pawn_pc_color c f dir n p' :
  piece_move dir n (Pawn c f) = (PPawnCapture, p') ->
  (c = WHITE /\ dir = W_DIAGONAL) \/ (c = BLACK /\ dir = B_DIAGONAL).
Proof.
  simpl. unfold pawn_is_valid_move.
  destruct c, dir; cbn [direction_eqb color_eqb andb negb orb];
    repeat match goal with |- context [if ?b then _ else _] => destruct b end;
    intros H; inversion H; auto.
Qed.

Lemma pawn_true_inv c f dir n p' :
  piece_move dir n (Pawn c f) = (PTrue, p') ->
  ((c = WHITE /\ dir = W_FORWARD) \/ (c = BLACK /\ dir = B_FORWARD)) /\
  (n = 1 \/ (n = 2 /\ f = true)).
Proof.
  simpl. unfold pawn_is_valid_move.
  destruct c, dir; cbn [direction_eqb color_eqb andb negb orb];
    destruct (n =? 1) eqn:E1, (n =? 2) eqn:E2, f; cbn [andb];
    intros H; inversion H; zbool; auto.
Qed.

Lemma king_true_inv c dir n p' :
  piece_move dir n (King c) = (PTrue, p') -> n = 1.
Proof. simpl. destruct (Z.eqb_spec n 1); intros H; inversion H; auto. Qed.

(** What an accepted move has passed, read on the board before the
    move: the piece's own rule and the path check. *)
Lemma accepted_valid a b g g' fr fc tr tc :
  notation_to_board_pos a = (fr, fc) -> notation_to_board_pos b = (tr, tc) ->
  make_move a b g = Ok true g' ->
  exists p, square (_board g) fr fc = Some (Some p) /\
    0 <= fr <= 8 /\ 0 <= fc <= 7 /\ 0 <= tr <= 8 /\ 0 <= tc <= 7 /\ (fr, fc) <> (tr, tc) /\
    ((is_knight p = true /\ knight_is_valid_move (fr, fc) (tr, tc) = true) \/
     (exists dir p', move_direction (fr, fc) (tr, tc) p = Some dir /\
        piece_move dir (move_distance (fr, fc) (tr, tc) dir) p = (PPawnCapture, p') /\
        exists q, square (_board g) tr tc = Some (Some q) /\ get_color q <> get_color p) \/
     (exists dir p', move_direction (fr, fc) (tr, tc) p = Some dir /\
        piece_move dir (move_distance (fr, fc) (tr, tc) dir) p = (PTrue, p') /\
        is_pawn p = false /\
        (forall r c, strictly_between (fr, fc) (tr, tc) r c -> square (_board g) r c = Some None)) \/
     (exists dir p', move_direction (fr, fc) (tr, tc) p = Some dir /\
        piece_move dir (move_distance (fr, fc) (tr, tc) dir) p = (PTrue, p') /\
        is_pawn p = true /\
        (0 < fr - tr -> forall r, tr <= r < fr -> square (_board g) r fc = Some None) /\
        (fr - tr < 0 -> forall r, fr < r <= tr -> square (_board g) r fc = Some None))).
Proof.
  intros Ea Eb H.
  apply make_move_accept_inv in H as (fr' & fc' & tr' & tc' & p & v & g2 & Ea' & Eb' &
    Hfr & Hfc & Htr & Htc & Hne & Hun & Hsq & Hcol & Hval & Hpath).
  rewrite Ea in Ea'. rewrite Eb in Eb'. injection Ea' as <- <-. injection Eb' as <- <-.
  destruct (validation_frame fr fc tr tc p v g g2) as [Hother _]; auto; try lia.
  exists p. do 6 (split; [auto|]).
  destruct Hval as [(Hk & Hkv & _ & _)|(Hk & Hv)]; [left; auto|right].
  destruct Hpath as [(-> & Hp & (q & Hq & Hc) & _)|Hrest].
  - left. destruct (valid_move_pc_dir _ _ _ _ _ Hv) as (dir & p' & Hd & Hpm).
    exists dir, p'. split; [exact Hd|]. split; [exact Hpm|].
    exists q. rewrite Hother in Hq by (lia || congruence).
    split; [exact Hq | apply color_eqb_false; exact Hc].
  - right.
    assert (truthy v = true /\ v <> PPawnCapture) as [Htv Hpc]
      by (destruct Hrest as [(? & ? & _)|(? & ? & _)]; auto).
    destruct (valid_move_truthy _ _ _ _ _ _ _ _ Hv Htv Hpc)
      as (dir & p' & g1 & Hd & Hpm & Hset & Hcl).
    destruct (set_sq_inv fr fc (Some p') g tt g1) as (b1 & -> & Hb1); try lia; [exact Hset|].
    assert (forall r c, 0 <= r -> 0 <= c -> (r, c) <> (fr, fc) ->
              square (_board (set_board g b1)) r c = square (_board g) r c) as Hg1.
    { intros r c Hr Hc Hrc. cbn [_board set_board]. rewrite Hb1 by lia.
      destruct (Z.eqb_spec r fr), (Z.eqb_spec c fc); subst; cbn [andb]; congruence. }
    destruct (move_direction_geom _ _ _ _ _ _ Hd) as (G1 & G2 & G3 & G4 & G5 & G6 & G7).
    destruct (is_pawn p) eqn:Hp.
    + right. exists dir, p'. do 3 (split; [auto|]).
      destruct Hcl as [(_ & [(HQK & _)|HR])|[(_ & [(HQK & _)|HB])|(_ & Hcp)]];
        try (destruct p; discriminate).
      destruct (clear_path_pawn_true _ _ _ _ _ _ _ Hcp Htv) as [Hw Hb].
      split; intros Hd' r Hr;
        rewrite <- Hg1 by (lia || (let E := fresh in intros E; injection E; lia)).
      * exact (Hw Hd' r Hr).
      * exact (Hb Hd' r Hr).
    + left. exists dir, p'. do 3 (split; [auto|]).
      intros r c Hbt.
      destruct (G7 eq_refl) as [->| ->].
      * assert (fr = tr \/ fc = tc) as Hl by auto.
        destruct (between_props fr fc tr tc r c) as (Hr & Hc & Hrc & _); [tauto | exact Hbt|].
        rewrite <- Hg1 by first [lia | exact Hrc].
        destruct Hcl as [(Hcs & _)|[(_ & [(_ & Hdd)|HB])|(Hpp & _)]];
          [ | discriminate | destruct p; try discriminate; simpl in Hpm;
              destruct (direction_eqb STRAIGHT DIAGONAL); discriminate | congruence].
        exact (clear_path_straight_true _ _ _ _ _ _ Hcs Hl r c Hbt).
      * assert (Z.abs (fr - tr) = Z.abs (fc - tc)) as Hl by auto.
        destruct (between_props fr fc tr tc r c) as (Hr & Hc & Hrc & _); [tauto | exact Hbt|].
        rewrite <- Hg1 by first [lia | exact Hrc].
        destruct Hcl as [(_ & [(_ & Hdd)|HR])|[(Hcs & _)|(Hpp & _)]];
          [ discriminate | destruct p; try discriminate; simpl in Hpm;
              destruct (direction_eqb DIAGONAL STRAIGHT); discriminate | | congruence].
        exact (clear_path_diagonal_true _ _ _ _ _ _ Hcs Hl r c Hbt).
Qed.

Ltac accepted_cases Ea Eb H Hsq :=
  let p := fresh "p" in let Hsq' := fresh "Hsq" in
  destruct (accepted_valid _ _ _ _ _ _ _ _ Ea Eb H)
    as (p & Hsq' & ? & ? & ? & ? & ? &
        [(?Hk & ?Hkv)|[(?dir & ?p' & ?Hd & ?Hpm & ?q & ?Hq & ?Hc)
        |[(?dir & ?p' & ?Hd & ?Hpm & ?Hp & ?Hbt)|(?dir & ?p' & ?Hd & ?Hpm & ?Hp & ?Hw & ?Hb)]]]);
  rewrite Hsq in Hsq'; injection Hsq' as <-;
  cbn [is_knight is_pawn] in *; try discriminate;
  try match goal with
      | Hm : piece_move _ _ _ = _ |- _ =>
          simpl in Hm;
          repeat match type of Hm with context [if ?b then _ else _] => destruct b end;
          discriminate
      end.

(** X8: a Rook's accepted move stays on its row or column, and every
    square strictly between the two squares was empty. *)
Theorem rook_move_rule a b g g' fr fc tr tc c :
  notation_to_board_pos a = (fr, fc) -> notation_to_board_pos b = (tr, tc) ->
  make_move a b g = Ok true g' -> square (_board g) fr fc = Some (Some (Rook c)) ->
  (fr = tr \/ fc = tc) /\
  forall r c', strictly_between (fr, fc) (tr, tc) r c' -> square (_board g) r c' = Some None.
Proof.
  intros Ea Eb H Hsq. accepted_cases Ea Eb H Hsq.
  split; [|exact Hbt].
  destruct (move_direction_geom _ _ _ _ _ _ Hd) as (G1 & _).
  destruct dir; simpl in Hpm; try discriminate. auto.
Qed.

(** X9: a Bishop's accepted move is diagonal, and every square strictly
    between the two squares was empty. *)
Theorem bishop_move_rule a b g g' fr fc tr tc c :
  notation_to_board_pos a = (fr, fc) -> notation_to_board_pos b = (tr, tc) ->
  make_move a b g = Ok true g' -> square (_board g) fr fc = Some (Some (Bishop c)) ->
  Z.abs (fr - tr) = Z.abs (fc - tc) /\
  forall r c', strictly_between (fr, fc) (tr, tc) r c' -> square (_board g) r c' = Some None.
Proof.
  intros Ea Eb H Hsq. accepted_cases Ea Eb H Hsq.
  split; [|exact Hbt].
  destruct (move_direction_geom _ _ _ _ _ _ Hd) as (_ & _ & _ & G4 & _).
  destruct dir; simpl in Hpm; try discriminate. auto.
Qed.

(** X10: a Queen's accepted move is along a row, a column or a
    diagonal, and every square strictly between the two squares was
    empty. *)
Theorem queen_move_rule a b g g' fr fc tr tc c :
  notation_to_board_pos a = (fr, fc) -> notation_to_board_pos b = (tr, tc) ->
  make_move a b g = Ok true g' -> square (_board g) fr fc = Some (Some (Queen c)) ->
  (fr = tr \/ fc = tc \/ Z.abs (fr - tr) = Z.abs (fc - tc)) /\
  forall r c', strictly_between (fr, fc) (tr, tc) r c' -> square (_board g) r c' = Some None.
Proof.
  intros Ea Eb H Hsq. accepted_cases Ea Eb H Hsq.
  split; [|exact Hbt].
  destruct (move_direction_geom _ _ _ _ _ _ Hd) as (G1 & _ & _ & G4 & _ & _ & G7).
  destruct (G7 eq_refl) as [-> | ->].
  - destruct (G1 (or_introl eq_refl)); auto.
  - right; right; auto.
Qed.

(** X11: a King's accepted move is one square up or down its column,
    one square diagonally, or one square to the left along its row
    (to the lower column index): for a move along the row the distance
    it checks is [sq_from[1] - sq_to[1]], which is -1 for a step to the
    right. *)
Theorem king_move_rule a b g g' fr fc tr tc c :
  notation_to_board_pos a = (fr, fc) -> notation_to_board_pos b = (tr, tc) ->
  make_move a b g = Ok true g' -> square (_board g) fr fc = Some (Some (King c)) ->
  (fr = tr /\ tc = fc - 1) \/ (fc = tc /\ Z.abs (fr - tr) = 1) \/
  (Z.abs (fr - tr) = 1 /\ Z.abs (fc - tc) = 1).
Proof.
  intros Ea Eb H Hsq. accepted_cases Ea Eb H Hsq.
  apply king_true_inv in Hpm.
  destruct (move_direction_geom _ _ _ _ _ _ Hd) as (G1 & _ & _ & G4 & _ & _ & G7).
  unfold move_distance in Hpm. cbn [fst snd] in Hpm.
  destruct (G7 eq_refl) as [-> | ->]; cbn [direction_eqb andb] in Hpm.
  - destruct (Z.eqb_spec fr tr); cbn [andb] in Hpm; [left; lia|].
    right; left. destruct (G1 (or_introl eq_refl)); [contradiction | split; lia].
  - right; right. specialize (G4 eq_refl). lia.
Qed.

(** X12: a Pawn's accepted move, with [d] = 1 for White and -1 for
    Black (rows are counted from Black's side): either it goes [d] rows
    along its column onto an empty square, or, while its
    [_is_first_turn] flag is set, [2d] rows over an empty square onto an
    empty square; or it goes [d] rows and one column onto a piece of the
    other colour. *)
Theorem pawn_move_rule a b g g' fr fc tr tc c first :
  notation_to_board_pos a = (fr, fc) -> notation_to_board_pos b = (tr, tc) ->
  make_move a b g = Ok true g' -> square (_board g) fr fc = Some (Some (Pawn c first)) ->
  let d := match c with WHITE => 1 | BLACK => -1 end in
  (tc = fc /\ square (_board g) tr tc = Some None /\
   (fr - tr = d \/
    (fr - tr = 2 * d /\ first = true /\ square (_board g) (fr - d) fc = Some None))) \/
  (fr - tr = d /\ Z.abs (fc - tc) = 1 /\
   exists q, square (_board g) tr tc = Some (Some q) /\ get_color q <> c).
Proof.
  intros Ea Eb H Hsq. accepted_cases Ea Eb H Hsq.
  - right. destruct (move_direction_geom _ _ _ _ _ _ Hd) as (_ & _ & _ & _ & G5 & G6 & _).
    destruct (pawn_pc_color _ _ _ _ _ Hpm) as [(-> & ->) | (-> & ->)];
      [destruct (G5 eq_refl) | destruct (G6 eq_refl)]; cbv iota;
      (split; [lia|]); (split; [lia|]); exists q; auto.
  - left. destruct (move_direction_geom _ _ _ _ _ _ Hd) as (G1 & G2 & G3 & _).
    destruct (pawn_true_inv _ _ _ _ _ Hpm) as [[(-> & ->) | (-> & ->)] Hn];
      unfold move_distance in Hn; cbn [direction_eqb andb fst snd] in Hn; cbv iota.
    + specialize (G2 eq_refl).
      assert (fc = tc) as <- by (destruct (G1 (or_intror (or_introl eq_refl))); lia).
      split; [reflexivity|]. split; [apply Hw; lia|].
      destruct Hn as [Hn | (Hn & ->)]; [left; lia | right].
      split; [lia|]. split; [reflexivity | apply Hw; lia].
    + specialize (G3 eq_refl).
      assert (fc = tc) as <- by (destruct (G1 (or_intror (or_intror eq_refl))); lia).
      split; [reflexivity|]. split; [apply Hb; lia|].
      destruct Hn as [Hn | (Hn & ->)]; [left; lia | right].
      split; [lia|]. split; [reflexivity|].
      replace (fr - -1) with (fr + 1) by lia. apply Hb; lia.
Qed.

Open Scope string_scope.

Lemma accepted_move_target_witness :
  notation_to_board_pos "e4" = (4, 4) /\ notation_to_board_pos "d5" = (3, 3) /\
  make_move "e4" "d5" after_e4_d5 = Ok true (state_of (make_move "e4" "d5" after_e4_d5)) /\
  exists p, square (_board after_e4_d5) 4 4 = Some (Some p) /\
    get_color p = _player_turn after_e4_d5 /\
    (square (_board after_e4_d5) 3 3 = Some None \/
     exists q, square (_board after_e4_d5) 3 3 = Some (Some q) /\
               get_color q <> get_color p /\ is_king p = false).
Proof.
  assert (notation_to_board_pos "e4" = (4, 4)) as Ha by (vm_compute; reflexivity).
  assert (notation_to_board_pos "d5" = (3, 3)) as Hb by (vm_compute; reflexivity).
  assert (make_move "e4" "d5" after_e4_d5 = Ok true (state_of (make_move "e4" "d5" after_e4_d5)))
    as Hm by (vm_compute; reflexivity).
  refine (conj Ha (conj Hb (conj Hm _))).
  exact (accepted_move_target _ _ _ _ _ _ _ _ Ha Hb Hm).
Defined.


Lemma rejected_move_frame_witness :
  make_move "e2" "e5" new_game = Ok false (state_of (make_move "e2" "e5" new_game)) /\
  let g' := state_of (make_move "e2" "e5" new_game) in
  _game_state g' = _game_state new_game /\
  (forall r c, on_board r c ->
     square (_board g') r c = square (_board new_game) r c \/
     (notation_to_board_pos "e2" = (r, c) /\
      exists col f f', square (_board new_game) r c = Some (Some (Pawn col f)) /\
                       square (_board g') r c = Some (Some (Pawn col f')))) /\
  ((king_white g' = king_white new_game /\ king_black g' = king_black new_game) \/
   (king_white g' = false /\ king_black g' = false)).
Proof.
  assert (make_move "e2" "e5" new_game = Ok false (state_of (make_move "e2" "e5" new_game)))
    as Hm by (vm_compute; reflexivity).
  split; [exact Hm|].
  exact (rejected_move_frame _ _ _ _ Hm).
Defined.

Lemma rook_move_rule_witness :
  notation_to_board_pos "a1" = (7, 0) /\ notation_to_board_pos "a3" = (5, 0) /\
  make_move "a1" "a3" after_a4_h6 = Ok true (state_of (make_move "a1" "a3" after_a4_h6)) /\
  square (_board after_a4_h6) 7 0 = Some (Some (Rook WHITE)) /\
  (7 = 5 \/ 0 = 0) /\
  forall r c', strictly_between (7, 0) (5, 0) r c' -> square (_board after_a4_h6) r c' = Some None.
Proof.
  assert (notation_to_board_pos "a1" = (7, 0)) as Ha by (vm_compute; reflexivity).
  assert (notation_to_board_pos "a3" = (5, 0)) as Hb by (vm_compute; reflexivity).
  assert (make_move "a1" "a3" after_a4_h6 = Ok true (state_of (make_move "a1" "a3" after_a4_h6)))
    as Hm by (vm_compute; reflexivity).
  assert (square (_board after_a4_h6) 7 0 = Some (Some (Rook WHITE))) as Hs
    by (vm_compute; reflexivity).
  refine (conj Ha (conj Hb (conj Hm (conj Hs _)))).
  exact (rook_move_rule _ _ _ _ _ _ _ _ _ Ha Hb Hm Hs).
Defined.

Lemma bishop_move_rule_witness :
  notation_to_board_pos "f1" = (7, 5) /\ notation_to_board_pos "c4" = (4, 2) /\
  make_move "f1" "c4" after_e4_a6 = Ok true (state_of (make_move "f1" "c4" after_e4_a6)) /\
  square (_board after_e4_a6) 7 5 = Some (Some (Bishop WHITE)) /\
  Z.abs (7 - 4) = Z.abs (5 - 2) /\
  forall r c', strictly_between (7, 5) (4, 2) r c' -> square (_board after_e4_a6) r c' = Some None.
Proof.
  assert (notation_to_board_pos "f1" = (7, 5)) as Ha by (vm_compute; reflexivity).
  assert (notation_to_board_pos "c4" = (4, 2)) as Hb by (vm_compute; reflexivity).
  assert (make_move "f1" "c4" after_e4_a6 = Ok true (state_of (make_move "f1" "c4" after_e4_a6)))
    as Hm by (vm_compute; reflexivity).
  assert (square (_board after_e4_a6) 7 5 = Some (Some (Bishop WHITE))) as Hs
    by (vm_compute; reflexivity).
  refine (conj Ha (conj Hb (conj Hm (conj Hs _)))).
  exact (bishop_move_rule _ _ _ _ _ _ _ _ _ Ha Hb Hm Hs).
Defined.

Lemma queen_move_rule_witness :
  notation_to_board_pos "d1" = (7, 3) /\ notation_to_board_pos "h5" = (3, 7) /\
  make_move "d1" "h5" after_e4_a6 = Ok true (state_of (make_move "d1" "h5" after_e4_a6)) /\
  square (_board after_e4_a6) 7 3 = Some (Some (Queen WHITE)) /\
  (7 = 3 \/ 3 = 7 \/ Z.abs (7 - 3) = Z.abs (3 - 7)) /\
  forall r c', strictly_between (7, 3) (3, 7) r c' -> square (_board after_e4_a6) r c' = Some None.
Proof.
  assert (notation_to_board_pos "d1" = (7, 3)) as Ha by (vm_compute; reflexivity).
  assert (notation_to_board_pos "h5" = (3, 7)) as Hb by (vm_compute; reflexivity).
  assert (make_move "d1" "h5" after_e4_a6 = Ok true (state_of (make_move "d1" "h5" after_e4_a6)))
    as Hm by (vm_compute; reflexivity).
  assert (square (_board after_e4_a6) 7 3 = Some (Some (Queen WHITE))) as Hs
    by (vm_compute; reflexivity).
  refine (conj Ha (conj Hb (conj Hm (conj Hs _)))).
  exact (queen_move_rule _ _ _ _ _ _ _ _ _ Ha Hb Hm Hs).
Defined.

Lemma king_move_rule_witness :
  notation_to_board_pos "e1" = (7, 4) /\ notation_to_board_pos "e2" = (6, 4) /\
  make_move "e1" "e2" after_e4_a6 = Ok true (state_of (make_move "e1" "e2" after_e4_a6)) /\
  square (_board after_e4_a6) 7 4 = Some (Some (King WHITE)) /\
  ((7 = 6 /\ 4 = 4 - 1) \/ (4 = 4 /\ Z.abs (7 - 6) = 1) \/
   (Z.abs (7 - 6) = 1 /\ Z.abs (4 - 4) = 1)).
Proof.
  assert (notation_to_board_pos "e1" = (7, 4)) as Ha by (vm_compute; reflexivity).
  assert (notation_to_board_pos "e2" = (6, 4)) as Hb by (vm_compute; reflexivity).
  assert (make_move "e1" "e2" after_e4_a6 = Ok true (state_of (make_move "e1" "e2" after_e4_a6)))
    as Hm by (vm_compute; reflexivity).
  assert (square (_board after_e4_a6) 7 4 = Some (Some (King WHITE))) as Hs
    by (vm_compute; reflexivity).
  refine (conj Ha (conj Hb (conj Hm (conj Hs _)))).
  exact (king_move_rule _ _ _ _ _ _ _ _ _ Ha Hb Hm Hs).
Defined.

Lemma pawn_move_rule_witness :
  notation_to_board_pos "e2" = (6, 4) /\ notation_to_board_pos "e4" = (4, 4) /\
  make_move "e2" "e4" new_game = Ok true (state_of (make_move "e2" "e4" new_game)) /\
  square (_board new_game) 6 4 = Some (Some (Pawn WHITE true)) /\
  let d := 1 in
  (4 = 4 /\ square (_board new_game) 4 4 = Some None /\
   (6 - 4 = d \/ (6 - 4 = 2 * d /\ true = true /\ square (_board new_game) (6 - d) 4 = Some None))) \/
  (6 - 4 = d /\ Z.abs (4 - 4) = 1 /\
   exists q, square (_board new_game) 4 4 = Some (Some q) /\ get_color q <> WHITE).
Proof.
  assert (notation_to_board_pos "e2" = (6, 4)) as Ha by (vm_compute; reflexivity).
  assert (notation_to_board_pos "e4" = (4, 4)) as Hb by (vm_compute; reflexivity).
  assert (make_move "e2" "e4" new_game = Ok true (state_of (make_move "e2" "e4" new_game)))
    as Hm by (vm_compute; reflexivity).
  assert (square (_board new_game) 6 4 = Some (Some (Pawn WHITE true))) as Hs
    by (vm_compute; reflexivity).
  refine (conj Ha (conj Hb (conj Hm (conj Hs _)))).
  exact (pawn_move_rule _ _ _ _ _ _ _ _ _ _ Ha Hb Hm Hs).
Defined.

Close Scope string_scope.

(** ** [rapture_pawns] *)

Lemma py_range_cons a b : a < b -> py_range a b = a :: py_range (a + 1) b.
Proof.
  intros Hab. unfold py_range.
  replace (Z.to_nat (b - a)) with (S (Z.to_nat (b - (a + 1)))) by lia.
  cbn [seq map]. f_equal; [lia|].
  rewrite <- seq_shift, map_map. apply map_ext. intros k. lia.
Qed.

Lemma py_range_empty a : py_range a a = [].
Proof. unfold py_range. rewrite Z.sub_diag. reflexivity. Qed.

Lemma py_assign_ok {A} (l : list A) i x :
  0 <= i -> (Z.to_nat i < length l)%nat -> py_assign l i x = Some (<[Z.to_nat i := x]> l).
Proof.
  intros Hi Hl. unfold py_assign.
  destruct (Z.ltb_spec i 0); [lia|].
  destruct (Z.ltb_spec i 0), (Z.leb_spec (Z.of_nat (length l)) i); simpl; auto; lia.
Qed.

Lemma set_sq_exact r c x g row :
  0 <= r -> 0 <= c -> _board g !! Z.to_nat r = Some row -> (Z.to_nat c < length row)%nat ->
  set_sq r c x g = Ok tt (set_board g (<[Z.to_nat r := <[Z.to_nat c := x]> row]> (_board g))).
Proof.
  intros Hr Hc Hrow Hlen. unfold set_sq.
  unfold board in Hrow. rewrite (py_index_nonneg (_board g) r Hr), Hrow.
  rewrite py_assign_ok by lia.
  rewrite py_assign_ok; [reflexivity | lia |].
  apply lookup_lt_Some in Hrow. exact Hrow.
Qed.

Lemma set_board_twice g b1 b2 : set_board (set_board g b1) b2 = set_board g b2.
Proof. reflexivity. Qed.

Lemma set_board_same g : set_board g (_board g) = g.
Proof. destruct g. reflexivity. Qed.

Lemma board_set_board g b : _board (set_board g b) = b.
Proof. reflexivity. Qed.

Section Rapture.

Variable sel : option piece -> bool.
Variable f : option piece -> option piece.
Hypothesis Hf : forall x, f x = if sel x then None else x.

(** The column loop over the rest [suf] of a row whose first
    [length pre] squares are done. *)
Lemma rapture_cols_spec r g pre suf :
  0 <= r -> _board g !! Z.to_nat r = Some (pre ++ suf) ->
  rapture_cols sel r (py_range (Z.of_nat (length pre)) (Z.of_nat (length pre + length suf))) g =
  Ok tt (set_board g (<[Z.to_nat r := pre ++ map f suf]> (_board g))).
Proof.
  revert pre g. induction suf as [|x suf IH]; intros pre g Hr Hrow; unfold board in *.
  - rewrite Nat.add_0_r, py_range_empty. cbn [rapture_cols map].
    rewrite list_insert_id by exact Hrow. rewrite set_board_same. reflexivity.
  - rewrite py_range_cons by (cbn [length]; lia). cbn [rapture_cols].
    assert (get_sq r (Z.of_nat (length pre)) g = Ok x g) as Hget.
    { apply get_sq_ok. unfold square. rewrite py_index_nonneg by lia.
      rewrite Hrow. cbv beta iota. rewrite py_index_nonneg by lia. rewrite Nat2Z.id. apply list_lookup_middle. reflexivity. }
    rewrite (bind_ok _ _ _ _ _ Hget).
    assert (Z.of_nat (length pre) + 1 = Z.of_nat (length (pre ++ [f x]))) as E1
      by (rewrite length_app; cbn [length]; lia).
    assert (Z.of_nat (length pre + length (x :: suf)) =
            Z.of_nat (length (pre ++ [f x]) + length suf)) as E2
      by (rewrite length_app; cbn [length]; lia).
    destruct (sel x) eqn:Hs.
    + assert (f x = None) as Hfx by (rewrite Hf, Hs; reflexivity).
      assert (set_sq r (Z.of_nat (length pre)) None g =
              Ok tt (set_board g (<[Z.to_nat r := <[Z.to_nat (Z.of_nat (length pre)) := None]>
                                                   (pre ++ x :: suf)]> (_board g)))) as Hset.
      { apply (set_sq_exact r (Z.of_nat (length pre)) None g _ Hr ltac:(lia) Hrow).
        rewrite length_app; cbn [length]; lia. }
      cbv beta. rewrite (bind_ok _ _ _ _ _ Hset). rewrite E1, E2.
      rewrite IH; [| exact Hr |].
      * rewrite board_set_board, set_board_twice. unfold board in *.
        rewrite list_insert_insert_eq.
        rewrite <- app_assoc. reflexivity.
      * rewrite board_set_board. unfold board in *.
        rewrite list_lookup_insert_eq by (apply lookup_lt_Some in Hrow; lia).
        rewrite Nat2Z.id, insert_app_r_alt by lia. rewrite Nat.sub_diag.
        rewrite <- app_assoc, Hfx. reflexivity.
    + assert (f x = x) as Hfx by (rewrite Hf, Hs; reflexivity).
      cbv beta. rewrite (bind_ok _ _ g tt g) by reflexivity. rewrite E1, E2.
      rewrite IH; [| exact Hr | rewrite Hfx, <- app_assoc; exact Hrow].
      rewrite <- app_assoc. reflexivity.
Qed.

(** The row loop over the rows [suf] left, the first [length pre] rows
    done. *)
Lemma rapture_rows_spec g pre suf :
  _board g = pre ++ suf ->
  rapture_rows sel (zip (py_range (Z.of_nat (length pre)) (Z.of_nat (length pre + length suf))) suf) g =
  Ok tt (set_board g (pre ++ map (map f) suf)).
Proof.
  revert pre g. induction suf as [|row suf IH]; intros pre g Hb; unfold board in *.
  - rewrite Nat.add_0_r, py_range_empty. cbn [zip rapture_rows map].
    rewrite <- Hb, set_board_same. reflexivity.
  - rewrite py_range_cons by (cbn [length]; lia). cbn [zip rapture_rows].
    assert (_board g !! Z.to_nat (Z.of_nat (length pre)) = Some ([] ++ row)) as Hl.
    { unfold board in *. rewrite Nat2Z.id, Hb. apply list_lookup_middle. reflexivity. }
    pose proof (rapture_cols_spec (Z.of_nat (length pre)) g [] row ltac:(lia) Hl) as Hc.
    cbn [app length] in Hc. replace (Z.of_nat 0) with 0 in Hc by reflexivity.
    rewrite (bind_ok _ _ _ _ _ Hc).
    unfold board in *. rewrite Nat2Z.id, Hb, insert_app_r_alt, Nat.sub_diag by lia.
    cbn [insert list_insert].
    assert (Z.of_nat (length pre) + 1 = Z.of_nat (length (pre ++ [map f row]))) as E1
      by (rewrite length_app; cbn [length]; lia).
    assert (Z.of_nat (length pre + length (row :: suf)) =
            Z.of_nat (length (pre ++ [map f row]) + length suf)) as E2
      by (rewrite length_app; cbn [length]; lia).
    rewrite E1, E2, IH.
    + rewrite set_board_twice, <- app_assoc. reflexivity.
    + cbn [_board set_board]. rewrite <- app_assoc. reflexivity.
Qed.

Lemma rapture_loop_spec g :
  rapture_loop sel g = Ok tt (set_board g (map (map f) (_board g))).
Proof.
  unfold rapture_loop, enumerate. cbn [bind gets].
  pose proof (rapture_rows_spec g [] (_board g) eq_refl) as H.
  cbn [app length] in H. exact H.
Qed.

End Rapture.

(** X13: [rapture_pawns] never raises, and empties exactly the squares
    holding a Pawn of the colour asked for: Black's for ["b"], White's
    for ["w"], every Pawn for any other argument (the default [None]
    included).  Nothing else on the board or in the game changes. *)
Theorem rapture_pawns_effect color_ g :
  rapture_pawns color_ g =
  Ok tt (set_board g (map (map (clear_pawn
    (if py_str_eq color_ "b" then Some BLACK
     else if py_str_eq color_ "w" then Some WHITE else None))) (_board g))).
Proof.
  unfold rapture_pawns.
  destruct (py_str_eq color_ "b"); [|destruct (py_str_eq color_ "w")];
    apply rapture_loop_spec;
    intros [[c|c|c|c|c|c f]|]; try reflexivity;
    cbn [clear_pawn is_pawn_of sq_is_pawn is_pawn andb get_color];
    destruct c; reflexivity.
Qed.

(** ** Square names *)




(** X14: the name of every square of the board ("a8" for row 0 and
    column 0, ..., "h1" for row 7 and column 7) parses back to that
    square. *)
Theorem notation_square_name r c :
  on_board r c -> notation_to_board_pos (square_name r c) = (r, c).
Proof.
  intros [Hr Hc].
  assert (r = 0 \/ r = 1 \/ r = 2 \/ r = 3 \/ r = 4 \/ r = 5 \/ r = 6 \/ r = 7) as Er by lia.
  assert (c = 0 \/ c = 1 \/ c = 2 \/ c = 3 \/ c = 4 \/ c = 5 \/ c = 6 \/ c = 7) as Ec by lia.
  repeat destruct Er as [->|Er]; repeat destruct Ec as [->|Ec];
    try (subst; vm_compute; reflexivity).
Qed.



Open Scope string_scope.

Lemma notation_square_name_witness :
  on_board 6 4 /\ notation_to_board_pos (square_name 6 4) = (6, 4).
Proof.
  assert (on_board 6 4) as Hb by (unfold on_board; lia).
  split; [exact Hb | exact (notation_square_name 6 4 Hb)].
Defined.


Close Scope string_scope.
